(** * S2E execution tracers and binary readers: a shallow embedding

    This development embeds two translation units of S2E in Rocq and proves
    properties of them:

    - [MemoryTracer] follows
      [qemu/s2e/Plugins/ExecutionTracers/MemoryTracer.cpp]: the plugin that
      records memory accesses, TLB misses and page faults, with its
      timer-driven activation;
    - [Library] follows [tools/lib/BinaryReaders/Library.cpp]: the cache of
      parsed executables with its search path and the debug-information
      lookup.

    Unsigned 64-bit integers are values of [Z] with the wrap-around written
    out ([to_u64]); [std::map] and [std::set] keyed by [std::string] are
    stdpp's [gmap] and [gset]. *)

From Stdlib Require Import ZArith Lia.
From Stdlib Require Import DecimalString.
From Stdlib Require HexadecimalString HexadecimalN.
From stdpp Require Import gmap strings list.

Local Open Scope Z_scope.

(** ** Machine integers *)

(** Conversion to [uint64_t] (also the result of unsigned 64-bit arithmetic). *)
Definition to_u64 (x : Z) : Z := x mod 2 ^ 64.

(** Conversion to [uint8_t]. *)
Definition to_u8 (x : Z) : Z := x mod 2 ^ 8.

(** ** The memory tracer plugin *)

Module MemoryTracer.

(** [klee::ref<klee::Expr>]: the plugin only distinguishes constants from
    everything else. A constant carries its width in bits and its value. *)
Inductive Expr : Type :=
  | ConstantExpr (width : Z) (value : Z)
  | SymbolicExpr (width : Z) (name : string).

(** [isa<klee::ConstantExpr>(e)] *)
Definition isa_ConstantExpr (e : Expr) : bool :=
  match e with
  | ConstantExpr _ _ => true
  | SymbolicExpr _ _ => false
  end.

(** [e->getWidth()] *)
Definition getWidth (e : Expr) : Z :=
  match e with
  | ConstantExpr w _ => w
  | SymbolicExpr w _ => w
  end.

(** [cast<klee::ConstantExpr>(e)->getZExtValue(64)]. The cast is only reached
    for constants; the other branch is never evaluated by the plugin. *)
Definition getZExtValue (e : Expr) : Z :=
  match e with
  | ConstantExpr _ v => to_u64 v
  | SymbolicExpr _ _ => 0
  end.

(** Modelled from the spec: [klee::Expr::getMinBytesForWidth], which is not
    part of the translation unit; "computes minimal byte width required to
    represent value", that is the width in bits rounded up to whole bytes. *)
Definition getMinBytesForWidth (w : Z) : Z := (w + 7) / 8.

(** Modelled from the spec: the flag bits of a memory record, declared in
    the trace-entry header; "flags = isWrite<<0 | isIO<<1". *)
Definition EXECTRACE_MEM_WRITE : Z := 1.
Definition EXECTRACE_MEM_IO : Z := 2.

(** What the plugin reads of an [S2EExecutionState]. *)
Record S2EExecutionState : Type := {
  getPc : Z;
  getSp : Z
}.

(** The three trace entries the plugin builds. *)
Record ExecutionTraceMemory : Type := {
  mem_pc : Z;
  mem_address : Z;
  mem_value : Z;
  mem_size : Z;
  mem_flags : Z
}.

Record ExecutionTraceTlbMiss : Type := {
  tlb_pc : Z;
  tlb_address : Z;
  tlb_isWrite : bool
}.

Record ExecutionTracePageFault : Type := {
  pf_pc : Z;
  pf_address : Z;
  pf_isWrite : bool
}.

Inductive TraceItem : Type :=
  | ItemMemory (e : ExecutionTraceMemory)
  | ItemTlbMiss (e : ExecutionTraceTlbMiss)
  | ItemPageFault (e : ExecutionTracePageFault).

(** The record kinds passed to [ExecutionTracer::writeData]. *)
Inductive ExecTraceEntryType : Type :=
  | TRACE_MEMORY
  | TRACE_PAGEFAULT
  | TRACE_TLBMISS.

(** One call of [m_tracer->writeData(state, &e, sizeof(e), kind)]. *)
Record WriteData : Type := {
  wd_state : S2EExecutionState;
  wd_item : TraceItem;
  wd_type : ExecTraceEntryType
}.

(** The configuration keys read by [initialize]. [getInt] yields a signed
    64-bit integer. *)
Record ConfigFile : Type := {
  cfg_monitorStack : bool;
  cfg_catchAccessesAbove : Z;
  cfg_timeTrigger : Z;
  cfg_monitorMemory : bool;
  cfg_monitorPageFaults : bool;
  cfg_monitorTlbMisses : bool
}.

(** The data members of the plugin object. [m_timerConnection] is [true]
    while the [sigc::connection] to the core's [onTimer] signal is live. *)
Record Plugin : Type := {
  m_monitorStack : bool;
  m_catchAbove : Z;
  m_timeTrigger : Z;
  m_elapsedTics : Z;
  m_monitorMemory : bool;
  m_monitorPageFaults : bool;
  m_monitorTlbMisses : bool;
  m_timerConnection : bool
}.

(** The part of the S2E host the plugin acts on: how many times each of its
    handlers is connected to the core's event signals, what was written to
    the execution tracer, and the two log streams. *)
Record Host : Type := {
  onDataMemoryAccess_slots : nat;
  onPageFault_slots : nat;
  onTlbMiss_slots : nat;
  traceData : list WriteData;
  debugStream : list string;
  messagesStream : list string
}.

Definition fresh_host : Host :=
  {| onDataMemoryAccess_slots := 0; onPageFault_slots := 0;
     onTlbMiss_slots := 0; traceData := []; debugStream := [];
     messagesStream := [] |}.

Definition connect_onDataMemoryAccess (h : Host) : Host :=
  {| onDataMemoryAccess_slots := S (onDataMemoryAccess_slots h);
     onPageFault_slots := onPageFault_slots h;
     onTlbMiss_slots := onTlbMiss_slots h;
     traceData := traceData h; debugStream := debugStream h;
     messagesStream := messagesStream h |}.

Definition connect_onPageFault (h : Host) : Host :=
  {| onDataMemoryAccess_slots := onDataMemoryAccess_slots h;
     onPageFault_slots := S (onPageFault_slots h);
     onTlbMiss_slots := onTlbMiss_slots h;
     traceData := traceData h; debugStream := debugStream h;
     messagesStream := messagesStream h |}.

Definition connect_onTlbMiss (h : Host) : Host :=
  {| onDataMemoryAccess_slots := onDataMemoryAccess_slots h;
     onPageFault_slots := onPageFault_slots h;
     onTlbMiss_slots := S (onTlbMiss_slots h);
     traceData := traceData h; debugStream := debugStream h;
     messagesStream := messagesStream h |}.

Definition writeData (state : S2EExecutionState) (item : TraceItem)
    (type : ExecTraceEntryType) (h : Host) : Host :=
  {| onDataMemoryAccess_slots := onDataMemoryAccess_slots h;
     onPageFault_slots := onPageFault_slots h;
     onTlbMiss_slots := onTlbMiss_slots h;
     traceData := traceData h ++
       [{| wd_state := state; wd_item := item; wd_type := type |}];
     debugStream := debugStream h;
     messagesStream := messagesStream h |}.

Definition write_debug (line : string) (h : Host) : Host :=
  {| onDataMemoryAccess_slots := onDataMemoryAccess_slots h;
     onPageFault_slots := onPageFault_slots h;
     onTlbMiss_slots := onTlbMiss_slots h;
     traceData := traceData h;
     debugStream := debugStream h ++ [line];
     messagesStream := messagesStream h |}.

Definition write_message (line : string) (h : Host) : Host :=
  {| onDataMemoryAccess_slots := onDataMemoryAccess_slots h;
     onPageFault_slots := onPageFault_slots h;
     onTlbMiss_slots := onTlbMiss_slots h;
     traceData := traceData h;
     debugStream := debugStream h;
     messagesStream := messagesStream h ++ [line] |}.

Definition set_elapsedTics (n : Z) (p : Plugin) : Plugin :=
  {| m_monitorStack := m_monitorStack p; m_catchAbove := m_catchAbove p;
     m_timeTrigger := m_timeTrigger p; m_elapsedTics := n;
     m_monitorMemory := m_monitorMemory p;
     m_monitorPageFaults := m_monitorPageFaults p;
     m_monitorTlbMisses := m_monitorTlbMisses p;
     m_timerConnection := m_timerConnection p |}.

Definition set_timerConnection (c : bool) (p : Plugin) : Plugin :=
  {| m_monitorStack := m_monitorStack p; m_catchAbove := m_catchAbove p;
     m_timeTrigger := m_timeTrigger p; m_elapsedTics := m_elapsedTics p;
     m_monitorMemory := m_monitorMemory p;
     m_monitorPageFaults := m_monitorPageFaults p;
     m_monitorTlbMisses := m_monitorTlbMisses p;
     m_timerConnection := c |}.

(** A [bool] streamed to a [std::ostream] without [boolalpha]. *)
Definition show_bool (b : bool) : string := if b then "1" else "0".

(** The mask of [decideTracing]: the [int] literal [~0x3FFFF], converted to
    [uint64_t] by the [&] with a 64-bit operand. *)
Definition stack_mask : Z := to_u64 (Z.lnot 0x3FFFF).

(** [MemoryTracer::decideTracing] *)
Definition decideTracing (p : Plugin) (state : S2EExecutionState)
    (addr data : Z) : bool :=
  if addr <? m_catchAbove p then false
  else if m_monitorStack p then
    if Z.land (getSp state) stack_mask =? Z.land addr stack_mask
    then true
    else false
  else true.

(** [MemoryTracer::onDataMemoryAccess] *)
Definition onDataMemoryAccess (p : Plugin) (state : S2EExecutionState)
    (address hostAddress value : Expr) (isWrite isIO : bool)
    (h : Host) : Host :=
  if negb (isa_ConstantExpr address) || negb (isa_ConstantExpr value) then h
  else
    let addr := getZExtValue address in
    let val := getZExtValue value in
    if decideTracing p state addr val then
      let e := {| mem_pc := getPc state;
                  mem_address := addr;
                  mem_value := val;
                  mem_size := to_u8 (getMinBytesForWidth (getWidth value));
                  mem_flags := Z.lor (Z.b2z isWrite * EXECTRACE_MEM_WRITE)
                                     (Z.b2z isIO * EXECTRACE_MEM_IO) |} in
      writeData state (ItemMemory e) TRACE_MEMORY h
    else h.

(** [MemoryTracer::onTlbMiss] *)
Definition onTlbMiss (p : Plugin) (state : S2EExecutionState) (addr : Z)
    (is_write : bool) (h : Host) : Host :=
  let e := {| tlb_pc := getPc state; tlb_address := addr;
              tlb_isWrite := is_write |} in
  writeData state (ItemTlbMiss e) TRACE_TLBMISS h.

(** [MemoryTracer::onPageFault] *)
Definition onPageFault (p : Plugin) (state : S2EExecutionState) (addr : Z)
    (is_write : bool) (h : Host) : Host :=
  let e := {| pf_pc := getPc state; pf_address := addr;
              pf_isWrite := is_write |} in
  writeData state (ItemPageFault e) TRACE_PAGEFAULT h.

(** [MemoryTracer::enableTracing] *)
Definition enableTracing (p : Plugin) (h : Host) : Host :=
  let h1 :=
    if m_monitorMemory p then
      connect_onDataMemoryAccess
        (write_message "MemoryTracer Plugin: Enabling memory tracing" h)
    else h in
  let h2 :=
    if m_monitorPageFaults p then
      connect_onPageFault
        (write_message "MemoryTracer Plugin: Enabling page fault tracing" h1)
    else h1 in
  if m_monitorTlbMisses p then
    connect_onTlbMiss
      (write_message "MemoryTracer Plugin: Enabling TLB miss tracing" h2)
  else h2.

(** [MemoryTracer::onTimer]: the post-increment is compared before it takes
    effect, and the counter wraps at 64 bits. *)
Definition onTimer (s : Plugin * Host) : Plugin * Host :=
  let '(p, h) := s in
  let old := m_elapsedTics p in
  let p1 := set_elapsedTics (to_u64 (old + 1)) p in
  if old <? m_timeTrigger p1 then (p1, h)
  else (set_timerConnection false p1, enableTracing p1 h).

(** [MemoryTracer::initialize], on a host where the [ExecutionTracer] plugin
    is present (the [assert]). *)
Definition initialize (cfg : ConfigFile) (h : Host) : Plugin * Host :=
  let p := {| m_monitorStack := cfg_monitorStack cfg;
              m_catchAbove := to_u64 (cfg_catchAccessesAbove cfg);
              m_timeTrigger := to_u64 (cfg_timeTrigger cfg);
              m_elapsedTics := 0;
              m_monitorMemory := cfg_monitorMemory cfg;
              m_monitorPageFaults := cfg_monitorPageFaults cfg;
              m_monitorTlbMisses := cfg_monitorTlbMisses cfg;
              m_timerConnection := false |} in
  let h1 := write_debug
    ("MonitorMemory: " +:+ show_bool (m_monitorMemory p) +:+
     " PageFaults: " +:+ show_bool (m_monitorPageFaults p) +:+
     " TlbMisses: " +:+ show_bool (m_monitorTlbMisses p)) h in
  if m_timeTrigger p =? 0 then (p, enableTracing p h1)
  else (set_timerConnection true p, h1).

(** The core plugin emitting its [onTimer] signal: the handler runs only
    while the connection is live. *)
Definition emit_onTimer (s : Plugin * Host) : Plugin * Host :=
  if m_timerConnection (fst s) then onTimer s else s.

(** [k] timer ticks of the core. *)
Definition ticks (k : nat) (s : Plugin * Host) : Plugin * Host :=
  Nat.iter k emit_onTimer s.

(** The core plugin emitting a TLB miss or a page fault: every connected
    slot of the plugin runs once. *)
Definition emit_onTlbMiss (s : Plugin * Host) (state : S2EExecutionState)
    (addr : Z) (is_write : bool) : Plugin * Host :=
  (fst s, Nat.iter (onTlbMiss_slots (snd s))
            (onTlbMiss (fst s) state addr is_write) (snd s)).

Definition emit_onPageFault (s : Plugin * Host) (state : S2EExecutionState)
    (addr : Z) (is_write : bool) : Plugin * Host :=
  (fst s, Nat.iter (onPageFault_slots (snd s))
            (onPageFault (fst s) state addr is_write) (snd s)).

(** The activation gate as the plugin realises it. It is pending while the
    timer connection is live and none of the event handlers is connected;
    it is active once the timer connection is gone and the handlers selected
    by the configuration are connected, each exactly once. *)
Definition Pending (s : Plugin * Host) : Prop :=
  m_timerConnection (fst s) = true ∧
  onDataMemoryAccess_slots (snd s) = 0%nat ∧
  onPageFault_slots (snd s) = 0%nat ∧
  onTlbMiss_slots (snd s) = 0%nat.

Definition Active (s : Plugin * Host) : Prop :=
  m_timerConnection (fst s) = false ∧
  onDataMemoryAccess_slots (snd s) = Nat.b2n (m_monitorMemory (fst s)) ∧
  onPageFault_slots (snd s) = Nat.b2n (m_monitorPageFaults (fst s)) ∧
  onTlbMiss_slots (snd s) = Nat.b2n (m_monitorTlbMisses (fst s)).

(** Two sample set-ups used by the examples below: a plugin that monitors
    the stack with no address floor, and a configuration that delays tracing
    by one tick. *)
Definition stack_plugin : Plugin :=
  {| m_monitorStack := true; m_catchAbove := 0; m_timeTrigger := 0;
     m_elapsedTics := 0; m_monitorMemory := true;
     m_monitorPageFaults := false; m_monitorTlbMisses := false;
     m_timerConnection := false |}.

Definition late_cfg : ConfigFile :=
  {| cfg_monitorStack := false; cfg_catchAccessesAbove := 0;
     cfg_timeTrigger := 1; cfg_monitorMemory := true;
     cfg_monitorPageFaults := true; cfg_monitorTlbMisses := false |}.

(** Two more samples: a plugin that traces memory above 0x1000 whatever
    the stack, and an execution state. *)
Definition floor_plugin : Plugin :=
  {| m_monitorStack := false; m_catchAbove := 0x1000; m_timeTrigger := 0;
     m_elapsedTics := 0; m_monitorMemory := true;
     m_monitorPageFaults := false; m_monitorTlbMisses := false;
     m_timerConnection := false |}.

Definition sample_state : S2EExecutionState :=
  {| getPc := 0x401000; getSp := 0x1000 |}.

End MemoryTracer.

(** ** The library of parsed executables *)

(** What [Library.cpp] uses of its surroundings: the file system probed by
    [std::ifstream], the factory [ExecutableFile::create] and the lookup
    [ExecutableFile::getInfo]. Each may read and change the outside world,
    so each takes the world and returns the next one with its answer. A
    failed [create] (a null pointer) and a failed [getInfo] ([false]) are
    [None]. *)
Class Environment : Type := {
  World : Type;
  ExecutableFile : Type;
  ifstream_is_open : string → World → bool * World;
  ExecutableFile_create : string → World → option ExecutableFile * World;
  ExecutableFile_getInfo :
    ExecutableFile → Z → World → option (string * Z * string) * World
}.

Module Library.

(** The [ModuleInstance] fields read by the library. *)
Record ModuleInstance : Type := {
  Name : string;
  LoadBase : Z;
  ImageBase : Z
}.

(** The command-line option [-os] keeps its initial value unless given. *)
Definition KernelStart_init : Z := 0x80000000.

(** [Library::translatePid], with the value of [KernelStart] as a
    parameter. *)
Definition translatePid (KernelStart : Z) (pid pc : Z) : Z :=
  if pc >=? KernelStart then 0 else pid.

(** The image-relative address of [getInfo] and [print]:
    [pc - LoadBase + ImageBase] on [uint64_t]. *)
Definition reladdr (pc loadBase imageBase : Z) : Z :=
  to_u64 (to_u64 (pc - loadBase) + imageBase).

(** A [uint64_t] streamed to a [std::stringstream]. *)
Definition show_u64 (n : Z) : string :=
  NilZero.string_of_uint (N.to_uint (Z.to_N n)).

Section WithEnvironment.
Context `{Environment}.

(** The data members of a [Library] object. *)
Record Library : Type := {
  m_libpath : list string;
  m_libraries : gmap string ExecutableFile;
  m_badLibraries : gset string
}.

(** What a call does outside the object, in order. *)
Inductive Effect : Type :=
  | EStdout (line : string)
  | EOpen (path : string)
  | ECreate (path : string)
  | EGetInfo (exec : ExecutableFile) (addr : Z).

Record State : Type := {
  world : World;
  lib : Library;
  trace : list Effect
}.

(** [Library::Library()] in a given world. *)
Definition init (w : World) : State :=
  {| world := w;
     lib := {| m_libpath := []; m_libraries := ∅; m_badLibraries := ∅ |};
     trace := [] |}.

(** Member functions are state transformers with a result. *)
Definition M (A : Type) : Type := State → A * State.

Definition ret {A} (a : A) : M A := λ s, (a, s).

Definition bind {A B} (c : M A) (k : A → M B) : M B :=
  λ s, let '(a, s1) := c s in k a s1.

Notation "x <- c ;; k" := (bind c (λ x, k))
  (at level 100, c at next level, right associativity).
Notation "c ;;; k" := (bind c (λ _, k))
  (at level 100, right associativity).

Definition get_lib : M Library := λ s, (lib s, s).

Definition put_lib (l : Library) : M unit :=
  λ s, (tt, {| world := world s; lib := l; trace := trace s |}).

Definition emit (e : Effect) : M unit :=
  λ s, (tt, {| world := world s; lib := lib s; trace := trace s ++ [e] |}).

(** Run an operation of the environment on the current world. *)
Definition call_env {A} (f : World → A * World) (e : Effect) : M A :=
  λ s, let '(a, w) := f (world s) in
       (a, {| world := w; lib := lib s; trace := trace s ++ [e] |}).

Definition cout (line : string) : M unit := emit (EStdout line).

Definition libpath_push_back (path : string) : M unit :=
  l <- get_lib ;;
  put_lib {| m_libpath := m_libpath l ++ [path];
             m_libraries := m_libraries l;
             m_badLibraries := m_badLibraries l |}.

Definition badLibraries_insert (path : string) : M unit :=
  l <- get_lib ;;
  put_lib {| m_libpath := m_libpath l;
             m_libraries := m_libraries l;
             m_badLibraries := ({[path]} ∪ m_badLibraries l) |}.

Definition libraries_assign (path : string) (exec : ExecutableFile) : M unit :=
  l <- get_lib ;;
  put_lib {| m_libpath := m_libpath l;
             m_libraries := <[path := exec]> (m_libraries l);
             m_badLibraries := m_badLibraries l |}.

(** The [do ... while] loop of [setPath]: [prev] is the start of the current
    field, [index prev ":" s] is [s.find(':', prev)] with [None] for [npos].
    Every round moves [prev] past one more character of [s], so
    [S (length s)] rounds are enough. *)
Fixpoint setPath_loop (rounds : nat) (s : string) (prev : nat) : M unit :=
  match rounds with
  | O => ret tt
  | S rounds' =>
    match String.index prev ":" s with
    | Some cur =>
      let path := String.substring prev (cur - prev) s in
      libpath_push_back path ;;;
      cout ("Adding libpath " +:+ path) ;;;
      setPath_loop rounds' s (cur + 1)
    | None =>
      let path := String.substring prev (String.length s - prev) s in
      libpath_push_back path ;;;
      cout ("Adding libpath " +:+ path)
    end
  end.

(** [Library::setPath] *)
Definition setPath (s : string) : M unit :=
  cout ("PATH " +:+ s) ;;;
  setPath_loop (S (String.length s)) s 0.

(** The loop of [findLibrary] over the remaining search directories. *)
Fixpoint findLibrary_loop (paths : list string) (libName : string)
    : M (option string) :=
  match paths with
  | [] => ret None
  | dir :: rest =>
    let s := (dir +:+ "/") +:+ libName in
    opened <- call_env (ifstream_is_open s) (EOpen s) ;;
    if (opened : bool) then ret (Some s) else findLibrary_loop rest libName
  end.

(** [Library::findLibrary]: [Some abspath] for [true], [None] for [false]
    (the out-parameter is then left alone). *)
Definition findLibrary (libName : string) : M (option string) :=
  l <- get_lib ;;
  findLibrary_loop (m_libpath l) libName.

(** [Library::addLibraryAbs] *)
Definition addLibraryAbs (libName : string) : M bool :=
  l <- get_lib ;;
  if decide (is_Some (m_libraries l !! libName)) then ret true
  else if decide (libName ∈ m_badLibraries l) then ret false
  else
    let ProgFile := libName in
    exec <- call_env (ExecutableFile_create ProgFile) (ECreate ProgFile) ;;
    match exec with
    | None => badLibraries_insert ProgFile ;;; ret false
    | Some e => libraries_assign libName e ;;; ret true
    end.

(** [Library::addLibrary] *)
Definition addLibrary (libName : string) : M bool :=
  found <- findLibrary libName ;;
  match found with
  | None => ret false
  | Some s => addLibraryAbs s
  end.

(** [Library::get]: [None] is the null pointer. *)
Definition get (name : string) : M (option ExecutableFile) :=
  found <- findLibrary name ;;
  match found with
  | None => ret None
  | Some s =>
    added <- addLibraryAbs s ;;
    if (added : bool) then
      l <- get_lib ;;
      ret (m_libraries l !! s)
    else ret None
  end.

(** [Library::getInfo]: [mi] is a pointer that may be null; the result is
    [Some (file, line, func)] for [true] and [None] for [false]. *)
Definition getInfo (mi : option ModuleInstance) (pc : Z)
    : M (option (string * Z * string)) :=
  match mi with
  | None => ret None
  | Some mi =>
    exec <- get (Name mi) ;;
    match exec with
    | None => ret None
    | Some exec =>
      let a := reladdr pc (LoadBase mi) (ImageBase mi) in
      call_env (ExecutableFile_getInfo exec a) (EGetInfo exec a)
    end
  end.

(** [Library::print] on a module name and its two bases: [Some out] for
    [true]. *)
Definition print_module (modName : string) (loadBase imageBase pc : Z)
    (file line func : bool) : M (option string) :=
  exec <- get modName ;;
  match exec with
  | None => ret None
  | Some exec =>
    let a := reladdr pc loadBase imageBase in
    info <- call_env (ExecutableFile_getInfo exec a) (EGetInfo exec a) ;;
    match info with
    | None => ret None
    | Some (source, ln, function) =>
      let ss := if file then source else "" in
      let ss := if line then ss +:+ ":" +:+ show_u64 ln else ss in
      let ss := if func then ss +:+ " - " +:+ function else ss in
      ret (Some ss)
    end
  end.

(** [Library::print] on a [ModuleInstance] pointer. *)
Definition print (mi : option ModuleInstance) (pc : Z)
    (file line func : bool) : M (option string) :=
  match mi with
  | None => ret None
  | Some mi =>
    print_module (Name mi) (LoadBase mi) (ImageBase mi) pc file line func
  end.

(** The public member functions, as a client may call them in any order. *)
Inductive Call : Type :=
  | CallSetPath (s : string)
  | CallFindLibrary (libName : string)
  | CallAddLibrary (libName : string)
  | CallAddLibraryAbs (libName : string)
  | CallGet (name : string)
  | CallGetInfo (mi : option ModuleInstance) (pc : Z)
  | CallPrintModule (modName : string) (loadBase imageBase pc : Z)
      (file line func : bool)
  | CallPrint (mi : option ModuleInstance) (pc : Z) (file line func : bool).

Definition do_call (c : Call) (s : State) : State :=
  match c with
  | CallSetPath p => snd (setPath p s)
  | CallFindLibrary n => snd (findLibrary n s)
  | CallAddLibrary n => snd (addLibrary n s)
  | CallAddLibraryAbs n => snd (addLibraryAbs n s)
  | CallGet n => snd (get n s)
  | CallGetInfo mi pc => snd (getInfo mi pc s)
  | CallPrintModule n lb ib pc f l fn => snd (print_module n lb ib pc f l fn s)
  | CallPrint mi pc f l fn => snd (print mi pc f l fn s)
  end.

Definition run (calls : list Call) (s : State) : State :=
  foldl (λ s c, do_call c s) s calls.

(** How many times [ExecutableFile::create] was invoked on [path]. *)
Fixpoint create_count (path : string) (t : list Effect) : nat :=
  match t with
  | [] => 0
  | ECreate q :: t' =>
    ((if decide (q = path) then 1 else 0) + create_count path t')%nat
  | _ :: t' => create_count path t'
  end.

(** [path] is a key of the positive or of the negative cache. *)
Definition cached (path : string) (l : Library) : Prop :=
  is_Some (m_libraries l !! path) ∨ path ∈ m_badLibraries l.

(** No path is a key of both caches. *)
Definition caches_disjoint (l : Library) : Prop :=
  ∀ path, ¬ (is_Some (m_libraries l !! path) ∧ path ∈ m_badLibraries l).

(** What every member function guarantees about a path [p] between the state
    [s] it starts in and the state [s'] it ends in: disjoint caches stay
    disjoint, a cached path stays cached, and the parser is invoked on [p]
    either not at all or once, the latter only if [p] was not cached before
    and is cached afterwards. *)
Definition cache_step (p : string) (s s' : State) : Prop :=
  (caches_disjoint (lib s) → caches_disjoint (lib s')) ∧
  (cached p (lib s) → cached p (lib s')) ∧
  (create_count p (trace s') = create_count p (trace s) ∨
   (¬ cached p (lib s) ∧ cached p (lib s') ∧
    create_count p (trace s') = S (create_count p (trace s)))).

(** Between two states, the library only gains: the search path is extended
    at its end, and both caches keep what they hold. *)
Definition grows (s s' : State) : Prop :=
  m_libpath (lib s) `prefix_of` m_libpath (lib s') ∧
  m_libraries (lib s) ⊆ m_libraries (lib s') ∧
  m_badLibraries (lib s) ⊆ m_badLibraries (lib s').

End WithEnvironment.

(** A stub environment for the examples. Two files can be opened, both in
    [/usr/lib]; only [libc.so] parses, to the handle 7, which knows one
    address. The world is the number of calls of the parser so far. *)
Definition stub_env : Environment :=
  {| World := nat;
     ExecutableFile := nat;
     ifstream_is_open path n :=
       (bool_decide (path ∈ ["/usr/lib/libc.so"; "/usr/lib/junk.so"]), n);
     ExecutableFile_create path n :=
       (if decide (path = "/usr/lib/libc.so") then Some 7%nat else None, S n);
     ExecutableFile_getInfo exec a n :=
       (if decide (exec = 7%nat ∧ a = 0x400050)
        then Some ("main.c", 42, "main") else None, n) |}.

Definition stub_init : @State stub_env := @init stub_env 0%nat.

Definition libc_instance : ModuleInstance :=
  {| Name := "libc.so"; LoadBase := 0x1000; ImageBase := 0x400000 |}.

Definition stub_calls : list Call :=
  [ CallSetPath "/opt:/usr/lib";
    CallAddLibrary "libc.so";
    CallGet "libc.so";
    CallAddLibraryAbs "/usr/lib/libc.so";
    CallGet "junk.so";
    CallGet "junk.so";
    CallAddLibraryAbs "/usr/lib/junk.so";
    CallGetInfo (Some libc_instance) 0x1050 ].

Import Stdlib.Strings.Ascii.

(** The fields of a colon-separated string, by recursion on the string. *)
Fixpoint split_colon (s : string) : list string :=
  match s with
  | EmptyString => [EmptyString]
  | String c s' =>
    if Ascii.eqb c ":"%char then EmptyString :: split_colon s'
    else match split_colon s' with
         | f :: fs => String c f :: fs
         | [] => [String c EmptyString]
         end
  end.

(** [s] without its first [n] characters. *)
Fixpoint string_drop (n : nat) (s : string) : string :=
  match n, s with
  | O, _ => s
  | S n', EmptyString => EmptyString
  | S n', String _ s' => string_drop n' s'
  end.

(** Whether a string holds a colon. *)
Fixpoint has_colon (s : string) : bool :=
  match s with
  | EmptyString => false
  | String c s' => Ascii.eqb c ":"%char || has_colon s'
  end.

(** The number of colons of a string. *)
Fixpoint colons (s : string) : nat :=
  match s with
  | EmptyString => 0
  | String c s' => ((if Ascii.eqb c ":"%char then 1 else 0) + colons s')%nat
  end.

(** The files [findLibrary] tries for [libName], in order. *)
Definition candidates (paths : list string) (libName : string) : list string :=
  map (λ dir, (dir +:+ "/") +:+ libName) paths.

(** The text [print] builds from what [getInfo] found. *)
Definition print_format (file line func : bool) (info : string * Z * string)
    : string :=
  let '(source, ln, function) := info in
  let ss := if file then source else "" in
  let ss := if line then ss +:+ ":" +:+ show_u64 ln else ss in
  if func then ss +:+ " - " +:+ function else ss.

(** The stub library after it has looked for both files. *)
Definition stub_cached : @State stub_env :=
  run [CallSetPath "/opt:/usr/lib"; CallGet "junk.so"; CallGet "libc.so"]
      stub_init.

End Library.

(** ** Printing in base 16 *)

(** [qemu/s2e/Utils.h]: [hexval] and its [operator<<]. The stream is the
    part of [std::ostream] that the operator reads and writes; string and
    integer insertion follow the formatted output functions of the C++
    library. *)
Module Utils.
Import Stdlib.Strings.Ascii.

(** [struct hexval]: a value and the least number of digits to print. *)
Record hexval : Type := {
  value : Z;
  width : Z
}.

(** The bits of [std::ios_base::fmtflags] that integer and string insertion
    read: the three bits of [basefield], the three of [adjustfield],
    [showbase] and [uppercase]; [f_other] stands for the bits left. *)
Record fmtflags : Type := {
  f_dec : bool;
  f_oct : bool;
  f_hex : bool;
  f_left : bool;
  f_right : bool;
  f_internal : bool;
  f_showbase : bool;
  f_uppercase : bool;
  f_other : N
}.

(** The state of a [std::ostream] as [operator<<] sees it: the format flags,
    the field width, the fill character and the characters written so
    far. *)
Record ostream : Type := {
  os_flags : fmtflags;
  os_width : Z;
  os_fill : ascii;
  os_text : string
}.

(** [out.setf(std::ios::hex, std::ios_base::basefield)] *)
Definition setf_hex (f : fmtflags) : fmtflags :=
  {| f_dec := false; f_oct := false; f_hex := true;
     f_left := f_left f; f_right := f_right f; f_internal := f_internal f;
     f_showbase := f_showbase f; f_uppercase := f_uppercase f;
     f_other := f_other f |}.

(** [(flags & adjustfield) == left] and [== internal] *)
Definition adjust_is_left (f : fmtflags) : bool :=
  f_left f && negb (f_right f) && negb (f_internal f).

Definition adjust_is_internal (f : fmtflags) : bool :=
  f_internal f && negb (f_left f) && negb (f_right f).

Fixpoint string_replicate (n : nat) (c : ascii) : string :=
  match n with
  | O => EmptyString
  | S n' => String c (string_replicate n' c)
  end.

(** The fill characters a field of [w] needs around [len] characters. *)
Definition padding (w : Z) (len : nat) (c : ascii) : string :=
  string_replicate (Z.to_nat (w - Z.of_nat len)) c.

(** [out << "..."] for a character string: padded to the field width, to
    the right of the text only when the adjustment is [left]; the width is
    then reset. *)
Definition put_cstring (str : string) (out : ostream) : ostream :=
  let fillers := padding (os_width out) (String.length str) (os_fill out) in
  {| os_flags := os_flags out; os_width := 0; os_fill := os_fill out;
     os_text := os_text out +:+
       (if adjust_is_left (os_flags out) then str +:+ fillers
        else fillers +:+ str) |}.

Definition upper_hex (c : ascii) : ascii :=
  if (Ascii.eqb c "a" || Ascii.eqb c "b" || Ascii.eqb c "c" ||
      Ascii.eqb c "d" || Ascii.eqb c "e" || Ascii.eqb c "f" ||
      Ascii.eqb c "x")%char
  then ascii_of_N (N_of_ascii c - 32) else c.

Fixpoint string_map (f : ascii → ascii) (s : string) : string :=
  match s with
  | EmptyString => EmptyString
  | String c s' => String (f c) (string_map f s')
  end.

(** The digits of [v] in base 16, lower case, no leading zero. *)
Definition hex_digits (v : Z) : string :=
  HexadecimalString.NilZero.string_of_uint (N.to_hex_uint (Z.to_N v)).

(** [out << v] for a [uint64_t] while [basefield] is [hex]: the conversion
    [%llx], with [#] under [showbase] (a prefix for a value other than
    zero) and in capitals under [uppercase]; the fill goes after the text
    for [left], between prefix and digits for [internal], before the text
    otherwise; the width is then reset. *)
Definition put_u64_hex (v : Z) (out : ostream) : ostream :=
  let f := os_flags out in
  let case := if f_uppercase f then string_map upper_hex else (λ s, s) in
  let prefix := if f_showbase f && negb (v =? 0) then case "0x" else "" in
  let digits := case (hex_digits v) in
  let fillers :=
    padding (os_width out) (String.length prefix + String.length digits)
            (os_fill out) in
  {| os_flags := f; os_width := 0; os_fill := os_fill out;
     os_text := os_text out +:+
       (if adjust_is_left f then prefix +:+ digits +:+ fillers
        else if adjust_is_internal f then prefix +:+ fillers +:+ digits
        else fillers +:+ prefix +:+ digits) |}.

Definition set_flags (f : fmtflags) (out : ostream) : ostream :=
  {| os_flags := f; os_width := os_width out; os_fill := os_fill out;
     os_text := os_text out |}.

Definition set_width (w : Z) (out : ostream) : ostream :=
  {| os_flags := os_flags out; os_width := w; os_fill := os_fill out;
     os_text := os_text out |}.

Definition set_fill (c : ascii) (out : ostream) : ostream :=
  {| os_flags := os_flags out; os_width := os_width out; os_fill := c;
     os_text := os_text out |}.

(** [operator<<(std::ostream&, const hexval&)] *)
Definition hexval_insert (out : ostream) (h : hexval) : ostream :=
  let out := put_cstring "0x" out in
  let oldf := os_flags out in
  let out := set_flags (setf_hex (os_flags out)) out in
  let oldw := os_width out in
  let out := set_width (width h) out in
  let oldfill := os_fill out in
  let out := set_fill "0" out in
  let out := put_u64_hex (value h) out in
  set_fill oldfill (set_width oldw (set_flags oldf out)).


(** A stream as it is constructed: decimal, right-adjusted, fill blank. *)
Definition fresh_ostream : ostream :=
  {| os_flags := {| f_dec := true; f_oct := false; f_hex := false;
                    f_left := false; f_right := false; f_internal := false;
                    f_showbase := false; f_uppercase := false;
                    f_other := 0 |};
     os_width := 0; os_fill := " "; os_text := "" |}.

End Utils.

(** * Properties of the memory tracer *)

Module MemoryTracerSpec.
Import MemoryTracer.

Lemma to_u64_range x : 0 ≤ to_u64 x < 2 ^ 64.
Proof. unfold to_u64. apply Z.mod_pos_bound. lia. Qed.

Lemma to_u64_small x : 0 ≤ x < 2 ^ 64 → to_u64 x = x.
Proof. intros Hx. unfold to_u64. by apply Z.mod_small. Qed.

(** ** The event filter *)

Lemma testbit_above_u64 x n : 0 ≤ x < 2 ^ 64 → 64 ≤ n → Z.testbit x n = false.
Proof.
  intros [Hlo Hhi] Hn.
  destruct (decide (x = 0)) as [->|Hne]; [apply Z.bits_0|].
  apply Z.bits_above_log2; [done|].
  assert (Z.log2 x < 64); [|lia].
  apply Z.log2_lt_pow2; lia.
Qed.

(** Masking with [stack_mask] clears the low 18 bits of a 64-bit value. *)
Lemma land_stack_mask x :
  0 ≤ x < 2 ^ 64 → Z.land x stack_mask = Z.shiftl (Z.shiftr x 18) 18.
Proof.
  intros Hx.
  replace stack_mask with (Z.shiftl (Z.ones 46) 18) by reflexivity.
  apply Z.bits_inj'. intros n Hn.
  rewrite Z.land_spec.
  destruct (Z.lt_ge_cases n 18) as [Hlt|Hge].
  - rewrite !Z.shiftl_spec_low by done. apply andb_false_r.
  - rewrite !Z.shiftl_spec by done.
    rewrite Z.shiftr_spec by lia.
    replace (n - 18 + 18) with n by lia.
    destruct (Z.lt_ge_cases n 64) as [Hlt'|Hge'].
    + rewrite Z.ones_spec_low by lia. apply andb_true_r.
    + rewrite Z.ones_spec_high by lia.
      rewrite (testbit_above_u64 x n) by done. done.
Qed.

(** What the filter does when the stack is monitored: it accepts exactly the
    addresses in the 256 KiB-aligned block of 2^18 bytes that holds the stack
    pointer. *)
Lemma decideTracing_monitorStack p state addr data :
  m_monitorStack p = true →
  m_catchAbove p ≤ addr →
  0 ≤ addr < 2 ^ 64 →
  0 ≤ getSp state < 2 ^ 64 →
  decideTracing p state addr data = true ↔
  Z.shiftr addr 18 = Z.shiftr (getSp state) 18.
Proof.
  intros Hmon Hfloor Haddr Hsp. unfold decideTracing.
  destruct (Z.ltb_spec addr (m_catchAbove p)); [lia|].
  rewrite Hmon, !land_stack_mask by done.
  rewrite !Z.shiftl_mul_pow2 by lia.
  destruct (Z.eqb_spec (Z.shiftr (getSp state) 18 * 2 ^ 18)
                       (Z.shiftr addr 18 * 2 ^ 18)) as [Heq|Hne].
  - split; [intros _; lia|done].
  - split; [done|intros Heq; exfalso; apply Hne; by rewrite Heq].
Qed.

(** Below the floor nothing is accepted. *)
Lemma decideTracing_below_floor p state addr data :
  addr < m_catchAbove p → decideTracing p state addr data = false.
Proof.
  intros Hlt. unfold decideTracing.
  by destruct (Z.ltb_spec addr (m_catchAbove p)); [|lia].
Qed.

(** C1, evaluated on the code: with the stack monitored and no floor, the
    filter accepts address 0x2000 for stack pointer 0x1000, although the two
    lie in different 8 KiB-aligned regions ([a & ~0x1FFF] is 0x2000 and
    [sp & ~0x1FFF] is 0): the mask in the code, [~0x3FFFF], spans 256 KiB,
    not the 8 KiB its comment announces. *)
Theorem decideTracing_not_8k_region :
  decideTracing stack_plugin {| getPc := 0; getSp := 0x1000 |} 0x2000 0 = true ∧
  m_catchAbove stack_plugin ≤ 0x2000 ∧
  Z.land 0x2000 (to_u64 (Z.lnot 0x1FFF)) ≠
  Z.land 0x1000 (to_u64 (Z.lnot 0x1FFF)).
Proof. split; [reflexivity|]. split; [done|]. by vm_compute. Qed.

(** ** The trace recorder *)

(** C6: a memory access whose address or whose value is not a constant leaves
    the host as it is: nothing is written to the tracer, no handler or stream
    changes, and the handler has no other result through which an error
    could reach its caller. *)
Theorem onDataMemoryAccess_symbolic_dropped
    p state address hostAddress value isWrite isIO h :
  isa_ConstantExpr address = false ∨ isa_ConstantExpr value = false →
  onDataMemoryAccess p state address hostAddress value isWrite isIO h = h.
Proof.
  intros [Ha|Hv]; unfold onDataMemoryAccess.
  - by rewrite Ha.
  - rewrite Hv. by rewrite orb_true_r.
Qed.

Lemma onDataMemoryAccess_symbolic_dropped_witness :
  onDataMemoryAccess stack_plugin {| getPc := 0x401000; getSp := 0x2010 |}
    (SymbolicExpr 32 "addr") (ConstantExpr 64 0) (ConstantExpr 8 0x42)
    true false fresh_host = fresh_host.
Proof.
  apply onDataMemoryAccess_symbolic_dropped. left. reflexivity.
Defined.

(** A concrete access that passes the filter yields one memory record. *)
Example onDataMemoryAccess_concrete :
  traceData
    (onDataMemoryAccess
       {| m_monitorStack := false; m_catchAbove := 0x1000; m_timeTrigger := 0;
          m_elapsedTics := 0; m_monitorMemory := true;
          m_monitorPageFaults := false; m_monitorTlbMisses := false;
          m_timerConnection := false |}
       {| getPc := 0x401000; getSp := 0x7000 |}
       (ConstantExpr 32 0x2000) (ConstantExpr 64 0) (ConstantExpr 8 0x42)
       true false fresh_host)
  = [ {| wd_state := {| getPc := 0x401000; getSp := 0x7000 |};
         wd_item := ItemMemory {| mem_pc := 0x401000; mem_address := 0x2000;
                                  mem_value := 0x42; mem_size := 1;
                                  mem_flags := 1 |};
         wd_type := TRACE_MEMORY |} ].
Proof. reflexivity. Qed.

(** The handlers for TLB misses and page faults only append to the trace. *)
Lemma writeData_frame state item type h :
  onDataMemoryAccess_slots (writeData state item type h)
    = onDataMemoryAccess_slots h ∧
  onPageFault_slots (writeData state item type h) = onPageFault_slots h ∧
  onTlbMiss_slots (writeData state item type h) = onTlbMiss_slots h ∧
  debugStream (writeData state item type h) = debugStream h ∧
  messagesStream (writeData state item type h) = messagesStream h.
Proof. done. Qed.

(** C8: whatever the members of the plugin are (in particular the address
    floor and the stack switch), the TLB-miss handler appends exactly one
    record [{pc, address, isWrite}] of kind [TRACE_TLBMISS] to the trace, and
    the page-fault handler exactly one of kind [TRACE_PAGEFAULT]; the record
    carries the state's program counter and the event's own address and
    write bit. *)
Theorem onTlbMiss_onPageFault_unfiltered p state addr is_write h :
  traceData (onTlbMiss p state addr is_write h) =
    traceData h ++
      [ {| wd_state := state;
           wd_item := ItemTlbMiss {| tlb_pc := getPc state;
                                     tlb_address := addr;
                                     tlb_isWrite := is_write |};
           wd_type := TRACE_TLBMISS |} ] ∧
  traceData (onPageFault p state addr is_write h) =
    traceData h ++
      [ {| wd_state := state;
           wd_item := ItemPageFault {| pf_pc := getPc state;
                                       pf_address := addr;
                                       pf_isWrite := is_write |};
           wd_type := TRACE_PAGEFAULT |} ].
Proof. split; reflexivity. Qed.

(** ** The activation gate *)

Lemma set_elapsedTics_same p : set_elapsedTics (m_elapsedTics p) p = p.
Proof. by destruct p. Qed.

Lemma set_elapsedTics_twice m n p :
  set_elapsedTics m (set_elapsedTics n p) = set_elapsedTics m p.
Proof. reflexivity. Qed.

Lemma emit_onTimer_disconnected s :
  m_timerConnection (fst s) = false → emit_onTimer s = s.
Proof. intros Hc. unfold emit_onTimer. by rewrite Hc. Qed.

Lemma ticks_S k s : ticks (S k) s = emit_onTimer (ticks k s).
Proof. reflexivity. Qed.

Lemma ticks_disconnected k s :
  m_timerConnection (fst s) = false → ticks k s = s.
Proof.
  intros Hc. induction k as [|k IH]; [done|].
  rewrite ticks_S, IH. by apply emit_onTimer_disconnected.
Qed.

Lemma ticks_add j k s : ticks (j + k) s = ticks j (ticks k s).
Proof. unfold ticks. apply Nat.iter_add. Qed.

(** A tick that finds the counter below the trigger only counts. *)
Lemma emit_onTimer_wait p h :
  m_timerConnection p = true →
  m_elapsedTics p < m_timeTrigger p →
  emit_onTimer (p, h) = (set_elapsedTics (to_u64 (m_elapsedTics p + 1)) p, h).
Proof.
  intros Hc Hlt. unfold emit_onTimer, onTimer. cbn [fst]. rewrite Hc.
  cbn [set_elapsedTics m_timeTrigger].
  by destruct (Z.ltb_spec (m_elapsedTics p) (m_timeTrigger p)); [|lia].
Qed.

(** A tick that finds the counter at the trigger (or beyond) enables tracing
    and drops the timer connection. *)
Lemma emit_onTimer_fire p h :
  m_timerConnection p = true →
  m_timeTrigger p ≤ m_elapsedTics p →
  emit_onTimer (p, h) =
    (set_timerConnection false
       (set_elapsedTics (to_u64 (m_elapsedTics p + 1)) p),
     enableTracing p h).
Proof.
  intros Hc Hge. unfold emit_onTimer, onTimer. cbn [fst]. rewrite Hc.
  cbn [set_elapsedTics m_timeTrigger].
  by destruct (Z.ltb_spec (m_elapsedTics p) (m_timeTrigger p)); [lia|].
Qed.

(** While the counter stays at or below the trigger, [k] ticks add [k]. *)
Lemma ticks_wait k p h :
  m_timerConnection p = true →
  0 ≤ m_elapsedTics p →
  m_elapsedTics p + Z.of_nat k ≤ m_timeTrigger p →
  m_timeTrigger p < 2 ^ 64 →
  ticks k (p, h) = (set_elapsedTics (m_elapsedTics p + Z.of_nat k) p, h).
Proof.
  intros Hc He Hk Ht. induction k as [|k IH].
  - cbn [ticks Nat.iter nat_rect Z.of_nat].
    by rewrite Z.add_0_r, set_elapsedTics_same.
  - rewrite ticks_S, IH by lia.
    rewrite emit_onTimer_wait;
      cbn [m_timerConnection m_elapsedTics m_timeTrigger set_elapsedTics];
      [|done|lia].
    rewrite to_u64_small by lia.
    rewrite set_elapsedTics_twice. do 2 f_equal. lia.
Qed.

Lemma enableTracing_slots p h :
  onDataMemoryAccess_slots (enableTracing p h) =
    (onDataMemoryAccess_slots h + Nat.b2n (m_monitorMemory p))%nat ∧
  onPageFault_slots (enableTracing p h) =
    (onPageFault_slots h + Nat.b2n (m_monitorPageFaults p))%nat ∧
  onTlbMiss_slots (enableTracing p h) =
    (onTlbMiss_slots h + Nat.b2n (m_monitorTlbMisses p))%nat.
Proof.
  unfold enableTracing.
  destruct (m_monitorMemory p), (m_monitorPageFaults p),
    (m_monitorTlbMisses p); cbn; lia.
Qed.

Lemma enableTracing_traceData p h :
  traceData (enableTracing p h) = traceData h.
Proof.
  unfold enableTracing.
  by destruct (m_monitorMemory p), (m_monitorPageFaults p),
    (m_monitorTlbMisses p).
Qed.

Section Gate.
Variable cfg : ConfigFile.

Local Abbreviation N := (to_u64 (cfg_timeTrigger cfg)).
Local Abbreviation s0 := (initialize cfg fresh_host).

Lemma initialize_members :
  m_timeTrigger (fst s0) = N ∧ m_elapsedTics (fst s0) = 0 ∧
  m_monitorMemory (fst s0) = cfg_monitorMemory cfg ∧
  m_monitorPageFaults (fst s0) = cfg_monitorPageFaults cfg ∧
  m_monitorTlbMisses (fst s0) = cfg_monitorTlbMisses cfg ∧
  m_monitorStack (fst s0) = cfg_monitorStack cfg ∧
  m_catchAbove (fst s0) = to_u64 (cfg_catchAccessesAbove cfg).
Proof.
  unfold initialize. cbn [m_timeTrigger].
  by destruct (to_u64 (cfg_timeTrigger cfg) =? 0).
Qed.

Lemma initialize_delayed : 0 < N → Pending s0.
Proof.
  intros HN. unfold initialize, Pending. cbn [m_timeTrigger].
  by destruct (Z.eqb_spec N 0) as [HN0|_]; [lia|].
Qed.

Lemma initialize_immediate : N = 0 → Active s0.
Proof.
  intros HN. unfold initialize, Active. cbn [m_timeTrigger].
  rewrite HN. cbn [Z.eqb fst snd].
  split; [done|]. 
  match goal with |- context [enableTracing ?p ?h] =>
    destruct (enableTracing_slots p h) as (-> & -> & ->) end.
  done.
Qed.

(** The state after [k] ticks, while the gate waits. *)
Lemma ticks_pending (k : nat) :
  0 < N → Z.of_nat k ≤ N →
  ticks k s0 = (set_elapsedTics (Z.of_nat k) (fst s0), snd s0).
Proof.
  intros HN Hk.
  destruct initialize_members as (Ht & He & _).
  destruct (initialize_delayed HN) as (Hc & _).
  pose proof (to_u64_range (cfg_timeTrigger cfg)) as HNr.
  rewrite (surjective_pairing s0) at 1.
  rewrite ticks_wait; rewrite ?He, ?Ht; [done|done|lia..].
Qed.

(** The state after the tick that follows [N] waiting ticks. *)
Lemma ticks_fired :
  0 < N →
  ticks (S (Z.to_nat N)) s0 =
    (set_timerConnection false (set_elapsedTics (to_u64 (N + 1)) (fst s0)),
     enableTracing (fst s0) (snd s0)).
Proof.
  intros HN.
  destruct initialize_members as (Ht & He & _).
  destruct (initialize_delayed HN) as (Hc & _).
  rewrite ticks_S, ticks_pending by lia.
  rewrite emit_onTimer_fire; cbn [m_timerConnection m_timeTrigger m_elapsedTics set_elapsedTics]; [|done|lia].
  by rewrite Z2Nat.id by lia.
Qed.

Lemma ticks_after (k : nat) :
  0 < N → N < Z.of_nat k →
  ticks k s0 = ticks (S (Z.to_nat N)) s0.
Proof.
  intros HN Hk.
  replace k with ((k - S (Z.to_nat N)) + S (Z.to_nat N))%nat by lia.
  rewrite ticks_add. apply ticks_disconnected.
  by rewrite ticks_fired.
Qed.

Lemma fired_Active : 0 < N → Active (ticks (S (Z.to_nat N)) s0).
Proof.
  intros HN. rewrite ticks_fired by done.
  destruct (initialize_delayed HN) as (_ & Hm & Hp & Ht).
  unfold Active. cbn [fst snd].
  destruct (enableTracing_slots (fst s0) (snd s0)) as (-> & -> & ->).
  rewrite Hm, Hp, Ht. done.
Qed.

Lemma pending_Pending (k : nat) :
  0 < N → Z.of_nat k ≤ N → Pending (ticks k s0).
Proof.
  intros HN Hk. rewrite ticks_pending by done.
  destruct (initialize_delayed HN) as (Hc & Hm & Hp & Ht).
  unfold Pending. cbn [fst snd]. done.
Qed.

End Gate.

Lemma Pending_not_Active s : Pending s → ¬ Active s.
Proof. intros [Hp _] [Ha _]. congruence. Qed.

(** C2: let N be the trigger the plugin holds after [initialize]. If N > 0,
    the gate is pending after each of the first N ticks (the timer is still
    connected, no event handler is connected and nothing was traced); the
    tick after these, the (N+1)th, makes it active, the host then being the
    result of one call of [enableTracing] on the host as [initialize] left
    it; and every later tick changes nothing. If N = 0, [initialize] itself
    leaves the gate active, and no tick changes anything. *)
Theorem activation_gate (cfg : ConfigFile) :
  let N := to_u64 (cfg_timeTrigger cfg) in
  let s0 := initialize cfg fresh_host in
  (0 < N →
     (∀ k : nat, Z.of_nat k ≤ N →
        Pending (ticks k s0) ∧ traceData (snd (ticks k s0)) = []) ∧
     Active (ticks (S (Z.to_nat N)) s0) ∧
     snd (ticks (S (Z.to_nat N)) s0) = enableTracing (fst s0) (snd s0) ∧
     (∀ k : nat, N < Z.of_nat k →
        ticks k s0 = ticks (S (Z.to_nat N)) s0)) ∧
  (N = 0 →
     Active s0 ∧ ∀ k : nat, ticks k s0 = s0).
Proof.
  intros N s0. split.
  - intros HN. split; [|split; [|split]].
    + intros k Hk. split; [by apply pending_Pending|].
      subst s0 N. rewrite ticks_pending by done. cbn [snd].
      unfold initialize. cbn [m_timeTrigger].
      by destruct (Z.eqb_spec (to_u64 (cfg_timeTrigger cfg)) 0); [lia|].
    + by apply fired_Active.
    + subst s0 N. by rewrite ticks_fired.
    + intros k Hk. by apply ticks_after.
  - intros HN. pose proof (initialize_immediate cfg HN) as HA.
    split; [done|]. intros k. apply ticks_disconnected. apply HA.
Qed.

(** With a trigger of two ticks and all three monitors on, the handlers are
    connected by the third tick and not before. *)
Example three_ticks :
  let cfg := {| cfg_monitorStack := false; cfg_catchAccessesAbove := 0;
                cfg_timeTrigger := 2; cfg_monitorMemory := true;
                cfg_monitorPageFaults := true;
                cfg_monitorTlbMisses := true |} in
  map (λ k, onTlbMiss_slots (snd (ticks k (initialize cfg fresh_host))))
      [0; 1; 2; 3; 4]%nat = [0; 0; 0; 1; 1]%nat ∧
  map (λ k, m_timerConnection (fst (ticks k (initialize cfg fresh_host))))
      [0; 1; 2; 3; 4]%nat = [true; true; true; false; false].
Proof. split; reflexivity. Qed.

(** C3, as stated, fails: with a trigger of one tick the gate is not active
    after the first tick. *)
Lemma gate_not_active_after_N_ticks :
  ¬ Active (ticks 1 (initialize late_cfg fresh_host)).
Proof. intros [Hc _]. vm_compute in Hc. discriminate. Qed.

(** C3, amended: for a trigger N > 0, the counter of elapsed ticks reads k
    after k ≤ N ticks, each tick that finds it below N adding one; after the
    Nth tick the gate is still pending; and the gate is active after k ticks
    exactly when k > N, so it becomes active on the (N+1)th tick, the one
    that finds the counter equal to N. *)
Theorem onTimer_counts_then_activates (cfg : ConfigFile) :
  let N := to_u64 (cfg_timeTrigger cfg) in
  let s0 := initialize cfg fresh_host in
  0 < N →
  (∀ k : nat, Z.of_nat k ≤ N → m_elapsedTics (fst (ticks k s0)) = Z.of_nat k) ∧
  (∀ k : nat, Z.of_nat k < N →
     m_elapsedTics (fst (emit_onTimer (ticks k s0))) =
       m_elapsedTics (fst (ticks k s0)) + 1) ∧
  Pending (ticks (Z.to_nat N) s0) ∧
  (∀ k : nat, Active (ticks k s0) ↔ N < Z.of_nat k).
Proof.
  intros N s0 HN. split; [|split; [|split]].
  - intros k Hk. subst s0 N. by rewrite ticks_pending.
  - intros k Hk. rewrite <- ticks_S. subst s0 N.
    rewrite !ticks_pending by lia. cbn. lia.
  - apply pending_Pending; [done|]. lia.
  - intros k. split.
    + intros HA. destruct (Z.lt_ge_cases N (Z.of_nat k)) as [|Hle]; [done|].
      exfalso.
      by apply (Pending_not_Active (ticks k s0)); [apply pending_Pending|].
    + intros Hk. subst s0 N. rewrite ticks_after by done.
      by apply fired_Active.
Qed.

Lemma onTimer_counts_then_activates_witness :
  let s0 := initialize late_cfg fresh_host in
  (∀ k : nat, Z.of_nat k ≤ 1 → m_elapsedTics (fst (ticks k s0)) = Z.of_nat k) ∧
  (∀ k : nat, Z.of_nat k < 1 →
     m_elapsedTics (fst (emit_onTimer (ticks k s0))) =
       m_elapsedTics (fst (ticks k s0)) + 1) ∧
  Pending (ticks 1 s0) ∧
  (∀ k : nat, Active (ticks k s0) ↔ 1 < Z.of_nat k).
Proof.
  apply (onTimer_counts_then_activates late_cfg). reflexivity.
Defined.

(** While the gate is pending the core delivers no TLB miss and no page
    fault to the plugin. *)
Lemma Pending_no_delivery s state addr is_write :
  Pending s →
  emit_onTlbMiss s state addr is_write = s ∧
  emit_onPageFault s state addr is_write = s.
Proof.
  intros (_ & _ & Hp & Ht). unfold emit_onTlbMiss, emit_onPageFault.
  rewrite Hp, Ht. by destruct s.
Qed.

End MemoryTracerSpec.

(** * Properties of the library of parsed executables *)

Module LibrarySpec.
Import Library.

(** ** Owner translation *)

(** C7: [translatePid] answers 0 for a program counter at or above
    [KernelStart] and the pid itself below it; with the initial value
    0x80000000 of the option, pid 7 at 0x7FFFFFFF stays 7 and pid 7 at
    0x80000000 becomes 0. *)
Theorem translatePid_kernel_boundary (KernelStart pid pc : Z) :
  (KernelStart ≤ pc → translatePid KernelStart pid pc = 0) ∧
  (pc < KernelStart → translatePid KernelStart pid pc = pid) ∧
  translatePid KernelStart_init 7 0x7FFFFFFF = 7 ∧
  translatePid KernelStart_init 7 0x80000000 = 0.
Proof.
  unfold translatePid. split; [|split; [|split; reflexivity]].
  - intros Hge. by destruct (Z.geb_spec pc KernelStart); [|lia].
  - intros Hlt. by destruct (Z.geb_spec pc KernelStart); [lia|].
Qed.

(** ** The address handed to the parser *)

Lemma reladdr_mod pc loadBase imageBase :
  reladdr pc loadBase imageBase = (pc - loadBase + imageBase) mod 2 ^ 64.
Proof. unfold reladdr, to_u64. by rewrite Zplus_mod_idemp_l. Qed.

(** The subtraction wraps when the program counter lies below the load
    base. *)
Example reladdr_wraps : reladdr 0 1 0 = 2 ^ 64 - 1.
Proof. reflexivity. Qed.

(** ** The search path and the caches *)

(** Where [find] locates a colon: not before the start, and inside the
    string. *)
Lemma index_colon_bounds (str : string) (n m : nat) :
  String.index n ":" str = Some m → (n ≤ m < String.length str)%nat.
Proof.
  revert n m. induction str as [|c str IH]; intros [|n] m; cbn [String.index].
  - discriminate.
  - discriminate.
  - destruct (String.prefix ":" (String c str)).
    + intros [= <-]. cbn. lia.
    + destruct (String.index 0 ":" str) as [k|] eqn:E; [|discriminate].
      intros [= <-]. apply IH in E. cbn. lia.
  - destruct (String.index n ":" str) as [k|] eqn:E; [|discriminate].
    intros [= <-]. apply IH in E. cbn. lia.
Qed.

Section WithEnvironment.
Context `{Environment}.
Implicit Types (s : State) (p q : string).

Lemma create_count_app p (t u : list Effect) :
  create_count p (t ++ u) = (create_count p t + create_count p u)%nat.
Proof.
  induction t as [|e t IH]; [done|].
  destruct e; cbn [create_count app]; rewrite IH; lia.
Qed.

Lemma cache_step_refl p s : cache_step p s s.
Proof. unfold cache_step. auto. Qed.

Lemma cache_step_trans p s1 s2 s3 :
  cache_step p s1 s2 → cache_step p s2 s3 → cache_step p s1 s3.
Proof.
  intros (Hd1 & Hc1 & Hn1) (Hd2 & Hc2 & Hn2).
  split; [auto|]. split; [auto|].
  destruct Hn1 as [E1|(N1 & C1 & E1)], Hn2 as [E2|(N2 & C2 & E2)].
  - left. congruence.
  - right. split; [tauto|]. split; [done|]. congruence.
  - right. split; [done|]. split; [auto|]. congruence.
  - contradiction.
Qed.

(** A step that leaves the two caches alone and does not invoke the
    parser. *)
Lemma cache_step_frame p s s' :
  m_libraries (lib s') = m_libraries (lib s) →
  m_badLibraries (lib s') = m_badLibraries (lib s) →
  create_count p (trace s') = create_count p (trace s) →
  cache_step p s s'.
Proof.
  intros Hl Hb Hn. unfold cache_step, caches_disjoint, cached.
  rewrite Hl, Hb. auto.
Qed.

Lemma findLibrary_loop_frame paths libName s :
  lib (snd (findLibrary_loop paths libName s)) = lib s ∧
  ∀ p, create_count p (trace (snd (findLibrary_loop paths libName s)))
       = create_count p (trace s).
Proof.
  revert s. induction paths as [|dir rest IH]; intros s; [done|].
  cbn [findLibrary_loop]. unfold bind, call_env.
  destruct (ifstream_is_open _ (world s)) as [[|] w] eqn:E.
  - cbn. split; [done|]. intros p. rewrite create_count_app. cbn. lia.
  - match goal with |- context [findLibrary_loop rest libName ?s1] =>
      destruct (IH s1) as [Hl Hn] end.
    split; [by rewrite Hl|]. intros p. rewrite Hn. cbn.
    rewrite create_count_app. cbn. lia.
Qed.

Lemma findLibrary_frame libName s :
  lib (snd (findLibrary libName s)) = lib s ∧
  ∀ p, create_count p (trace (snd (findLibrary libName s)))
       = create_count p (trace s).
Proof. unfold findLibrary, bind, get_lib. apply findLibrary_loop_frame. Qed.

Lemma findLibrary_cache_step p libName s :
  cache_step p s (snd (findLibrary libName s)).
Proof.
  destruct (findLibrary_frame libName s) as [Hl Hn].
  apply cache_step_frame; by rewrite ?Hl, ?Hn.
Qed.

Lemma setPath_loop_frame rounds str prev s :
  m_libraries (lib (snd (setPath_loop rounds str prev s))) = m_libraries (lib s) ∧
  m_badLibraries (lib (snd (setPath_loop rounds str prev s)))
    = m_badLibraries (lib s) ∧
  ∀ p, create_count p (trace (snd (setPath_loop rounds str prev s)))
       = create_count p (trace s).
Proof.
  revert prev s. induction rounds as [|rounds IH]; intros prev s; [done|].
  cbn [setPath_loop]. destruct (String.index prev ":" str) as [cur|].
  - unfold bind at 1 2. cbn.
    match goal with |- context [setPath_loop rounds str ?a ?b] =>
      destruct (IH a b) as (Hl & Hb & Hn) end.
    rewrite Hl, Hb. split; [done|]. split; [done|].
    intros p. rewrite Hn. cbn. rewrite create_count_app. cbn. lia.
  - cbn. split; [done|]. split; [done|].
    intros p. rewrite create_count_app. cbn. lia.
Qed.

(** The loop of [setPath] ends by itself: any number of rounds above the
    count of characters left gives the same final state, so the rounds
    granted by [setPath] are never used up. *)
Lemma setPath_loop_rounds (r1 r2 : nat) (str : string) (prev : nat) s :
  (String.length str - prev < r1)%nat →
  (String.length str - prev < r2)%nat →
  setPath_loop r1 str prev s = setPath_loop r2 str prev s.
Proof.
  revert r2 prev s. induction r1 as [|r1 IH]; intros [|r2] prev s H1 H2;
    try lia.
  cbn [setPath_loop].
  destruct (String.index prev ":" str) as [cur|] eqn:E; [|done].
  apply index_colon_bounds in E. unfold bind.
  destruct (libpath_push_back _ s) as [[] s1].
  destruct (cout _ s1) as [[] s2].
  apply IH; lia.
Qed.

Lemma setPath_cache_step p str s : cache_step p s (snd (setPath str s)).
Proof.
  unfold setPath, bind, cout, emit.
  match goal with |- context [setPath_loop ?r ?x ?a ?b] =>
    destruct (setPath_loop_frame r x a b) as (Hl & Hb & Hn) end.
  apply cache_step_frame; rewrite ?Hl, ?Hb, ?Hn; try done.
  cbn. rewrite create_count_app. cbn. lia.
Qed.

(** The result of [addLibraryAbs] and its effect, case by case. *)
Lemma addLibraryAbs_cases q s :
  (is_Some (m_libraries (lib s) !! q) ∧ addLibraryAbs q s = (true, s)) ∨
  (m_libraries (lib s) !! q = None ∧ q ∈ m_badLibraries (lib s) ∧
   addLibraryAbs q s = (false, s)) ∨
  (m_libraries (lib s) !! q = None ∧ (q ∉ m_badLibraries (lib s)) ∧
   ∃ w, ExecutableFile_create q (world s) = (None, w) ∧
     addLibraryAbs q s =
       (false,
        {| world := w;
           lib := {| m_libpath := m_libpath (lib s);
                     m_libraries := m_libraries (lib s);
                     m_badLibraries := ({[q]} ∪ m_badLibraries (lib s)) |};
           trace := trace s ++ [ECreate q] |})) ∨
  (m_libraries (lib s) !! q = None ∧ (q ∉ m_badLibraries (lib s)) ∧
   ∃ e w, ExecutableFile_create q (world s) = (Some e, w) ∧
     addLibraryAbs q s =
       (true,
        {| world := w;
           lib := {| m_libpath := m_libpath (lib s);
                     m_libraries := <[q := e]> (m_libraries (lib s));
                     m_badLibraries := m_badLibraries (lib s) |};
           trace := trace s ++ [ECreate q] |})).
Proof.
  unfold addLibraryAbs, bind, get_lib.
  destruct (decide (is_Some (m_libraries (lib s) !! q))) as [Hin|Hnin].
  { left. done. }
  right. apply eq_None_not_Some in Hnin.
  destruct (decide (q ∈ m_badLibraries (lib s))) as [Hbad|Hnbad].
  { left. done. }
  right. unfold call_env.
  destruct (ExecutableFile_create q (world s)) as [[e|] w] eqn:E.
  - right. do 2 (split; [done|]). exists e, w. done.
  - left. do 2 (split; [done|]). exists w. done.
Qed.

Lemma addLibraryAbs_cache_step p q s :
  cache_step p s (snd (addLibraryAbs q s)).
Proof.
  destruct (addLibraryAbs_cases q s)
    as [(Hin & ->)|[(Hnone & Hbad & ->)|[(Hnone & Hnbad & w & Hc & ->)
       |(Hnone & Hnbad & e & w & Hc & ->)]]];
    cbn [snd]; try apply cache_step_refl.
  - (* the parser failed: [q] joins the negative cache *)
    unfold cache_step, caches_disjoint, cached. cbn.
    split; [|split].
    + intros Hd x [Hx Hxb]. apply elem_of_union in Hxb as [Hxq|Hxb].
      * apply elem_of_singleton in Hxq as ->. rewrite Hnone in Hx.
        by destruct Hx.
      * by apply (Hd x).
    + intros [Hl|Hb]; [by left|right; set_solver].
    + rewrite create_count_app. cbn.
      destruct (decide (q = p)) as [->|Hne].
      * right. split; [|split; [right; set_solver|lia]].
        intros [Hl|Hb]; [rewrite Hnone in Hl; by destruct Hl|done].
      * left. lia.
  - (* the parser succeeded: [q] joins the positive cache *)
    unfold cache_step, caches_disjoint, cached. cbn.
    split; [|split].
    + intros Hd x [Hx Hxb]. destruct (decide (q = x)) as [->|Hne]; [done|].
      rewrite lookup_insert_ne in Hx by done. by apply (Hd x).
    + intros [Hl|Hb]; [left|by right].
      destruct (decide (q = p)) as [->|Hne];
        [by rewrite lookup_insert_eq|by rewrite lookup_insert_ne].
    + rewrite create_count_app. cbn.
      destruct (decide (q = p)) as [->|Hne].
      * right. split; [|split; [left; by rewrite lookup_insert_eq|lia]].
        intros [Hl|Hb]; [rewrite Hnone in Hl; by destruct Hl|done].
      * left. lia.
Qed.

Lemma addLibrary_cache_step p libName s :
  cache_step p s (snd (addLibrary libName s)).
Proof.
  unfold addLibrary, bind.
  pose proof (findLibrary_cache_step p libName s) as Hf.
  destruct (findLibrary libName s) as [[abspath|] s1]; cbn [snd] in *; [|done].
  eapply cache_step_trans; [done|]. apply addLibraryAbs_cache_step.
Qed.

Lemma get_cache_step p name s : cache_step p s (snd (get name s)).
Proof.
  unfold get, bind.
  pose proof (findLibrary_cache_step p name s) as Hf.
  destruct (findLibrary name s) as [[abspath|] s1]; cbn [snd] in *; [|done].
  pose proof (addLibraryAbs_cache_step p abspath s1) as Ha.
  destruct (addLibraryAbs abspath s1) as [[|] s2]; cbn [snd] in *;
    by eapply cache_step_trans.
Qed.

Lemma call_env_cache_step {A} p (f : World → A * World) (e : Effect) s :
  create_count p [e] = 0%nat → cache_step p s (snd (call_env f e s)).
Proof.
  intros He. unfold call_env. destruct (f (world s)) as [a w]. cbn [snd].
  apply cache_step_frame; [done..|]. cbn [trace].
  rewrite create_count_app, He. lia.
Qed.

Lemma getInfo_cache_step p mi pc s : cache_step p s (snd (getInfo mi pc s)).
Proof.
  destruct mi as [mi|]; [|apply cache_step_refl].
  unfold getInfo, bind.
  pose proof (get_cache_step p (Name mi) s) as Hg.
  destruct (get (Name mi) s) as [[exec|] s1]; cbn [snd] in *; [|done].
  eapply cache_step_trans; [done|]. by apply call_env_cache_step.
Qed.

Lemma print_module_cache_step p modName loadBase imageBase pc file line func s :
  cache_step p s
    (snd (print_module modName loadBase imageBase pc file line func s)).
Proof.
  unfold print_module, bind.
  pose proof (get_cache_step p modName s) as Hg.
  destruct (get modName s) as [[exec|] s1]; cbn [snd] in *; [|done].
  match goal with |- context [call_env ?f ?e s1] =>
    pose proof (call_env_cache_step p f e s1 eq_refl) as Hc;
    destruct (call_env f e s1) as [[[[source ln] function]|] s2]
  end; cbn [snd] in *; by eapply cache_step_trans.
Qed.

Lemma print_cache_step p mi pc file line func s :
  cache_step p s (snd (print mi pc file line func s)).
Proof.
  destruct mi as [mi|]; [|apply cache_step_refl].
  apply print_module_cache_step.
Qed.

Lemma do_call_cache_step p c s : cache_step p s (do_call c s).
Proof.
  destruct c; cbn [do_call].
  - apply setPath_cache_step.
  - apply findLibrary_cache_step.
  - apply addLibrary_cache_step.
  - apply addLibraryAbs_cache_step.
  - apply get_cache_step.
  - apply getInfo_cache_step.
  - apply print_module_cache_step.
  - apply print_cache_step.
Qed.

Lemma run_cache_step p calls s : cache_step p s (run calls s).
Proof.
  revert s. induction calls as [|c calls IH]; intros s.
  - apply cache_step_refl.
  - cbn [run foldl]. eapply cache_step_trans; [apply do_call_cache_step|].
    apply IH.
Qed.

Lemma run_app calls1 calls2 s :
  run (calls1 ++ calls2) s = run calls2 (run calls1 s).
Proof. unfold run. apply foldl_app. Qed.


(** C4: from any state of the library, a second [addLibraryAbs] on the same
    path right after the first gives the same answer and changes nothing;
    whatever sequence of member functions runs, the parser is invoked on
    [p] at most once more than before; if it was invoked, [p] is cached
    afterwards; once [p] is cached, in either cache, no later call invokes
    the parser on it again; so on a freshly constructed library the parser
    sees [p] at most once in all. *)
Theorem addLibraryAbs_parsed_once (p : string) (s : State) :
  addLibraryAbs p (snd (addLibraryAbs p s)) = addLibraryAbs p s ∧
  (∀ calls : list Call,
     (create_count p (trace (run calls s))
        ≤ create_count p (trace s) + 1)%nat ∧
     (create_count p (trace (run calls s)) ≠ create_count p (trace s) →
      cached p (lib (run calls s)))) ∧
  (∀ calls1 calls2 : list Call,
     cached p (lib (run calls1 s)) →
     create_count p (trace (run (calls1 ++ calls2) s))
       = create_count p (trace (run calls1 s))) ∧
  (∀ (w : World) (calls : list Call),
     (create_count p (trace (run calls (init w))) ≤ 1)%nat).
Proof.
  split; [|split; [|split]]; cycle 3.
  { intros w calls.
    by destruct (run_cache_step p calls (init w))
      as (_ & _ & [->|(_ & _ & ->)]); cbn; lia. }
  - destruct (addLibraryAbs_cases p s)
      as [(Hin & E)|[(Hnone & Hbad & E)|[(Hnone & Hnbad & w & Hc & E)
         |(Hnone & Hnbad & e & w & Hc & E)]]];
      rewrite E; cbn [snd]; try done.
    + unfold addLibraryAbs, bind, get_lib, ret.
      cbn [lib m_libraries m_badLibraries].
      rewrite decide_False by (rewrite Hnone; by intros [? ?]).
      by rewrite decide_True by set_solver.
    + unfold addLibraryAbs, bind, get_lib, ret.
      cbn [lib m_libraries m_badLibraries].
      by rewrite decide_True by (by rewrite lookup_insert_eq).
  - intros calls.
    destruct (run_cache_step p calls s) as (_ & _ & [E|(_ & C & E)]);
      split; (lia || done).
  - intros calls1 calls2 Hc. rewrite run_app.
    destruct (run_cache_step p calls2 (run calls1 s))
      as (_ & _ & [E|(N & _ & _)]); [done|contradiction].
Qed.

(** C10: after any sequence of member functions on a freshly constructed
    library, no path is a key of both the map of parsed executables and the
    set of bad libraries. *)
Theorem caches_stay_disjoint (w : World) (calls : list Call) :
  caches_disjoint (lib (run calls (init w))).
Proof.
  apply (run_cache_step "" calls (init w)).
  intros path [Hl Hb]. cbn in Hb. set_solver.
Qed.

(** C5: [getInfo] on a module instance first runs [get] on its name; if that
    yields no executable, it fails without a query; otherwise it makes one
    query to the executable found, at the address
    [(pc - LoadBase + ImageBase) mod 2^64], with no other check, and hands
    the answer on. For load base 0x1000, image base 0x400000 and program
    counter 0x1050 that address is 0x400050. *)
Theorem getInfo_queries_reladdr (mi : ModuleInstance) (pc : Z) (s : State) :
  let a := (pc - LoadBase mi + ImageBase mi) mod 2 ^ 64 in
  match get (Name mi) s with
  | (None, s1) => getInfo (Some mi) pc s = (None, s1)
  | (Some exec, s1) =>
    let '(r, w) := ExecutableFile_getInfo exec a (world s1) in
    getInfo (Some mi) pc s =
      (r, {| world := w; lib := lib s1;
             trace := trace s1 ++ [EGetInfo exec a] |})
  end ∧
  reladdr 0x1050 0x1000 0x400000 = 0x400050.
Proof.
  intros a. split; [|reflexivity].
  unfold getInfo, bind. destruct (get (Name mi) s) as [[exec|] s1]; [|done].
  rewrite reladdr_mod. fold a. unfold call_env.
  by destruct (ExecutableFile_getInfo exec a (world s1)) as [r w].
Qed.

(** C9: on a null module instance [getInfo] and [print] answer [false] and
    leave the whole state as it was: the world, the search path, both caches
    and the trace of outside effects (no file probed, no parser call, no
    query). *)
Theorem null_module_instance (pc : Z) (file line func : bool) (s : State) :
  getInfo None pc s = (None, s) ∧
  print None pc file line func s = (None, s).
Proof. split; reflexivity. Qed.

End WithEnvironment.

(** ** The stub environment at work *)

Example setPath_fields :
  m_libpath (lib (snd (setPath "/opt:/usr/lib" stub_init)))
    = ["/opt"; "/usr/lib"] ∧
  m_libpath (lib (snd (setPath "a::b:" stub_init))) = ["a"; ""; "b"; ""] ∧
  m_libpath (lib (snd (setPath "" stub_init))) = [""].
Proof. repeat split; vm_compute; reflexivity. Qed.

(** Eight calls that name [libc.so] three times and [junk.so] three times
    reach the parser twice, once per file, and the one query goes to address
    0x400050. *)
Example stub_calls_parse_twice :
  world (run stub_calls stub_init) = 2%nat ∧
  create_count "/usr/lib/libc.so" (trace (run stub_calls stub_init)) = 1%nat ∧
  create_count "/usr/lib/junk.so" (trace (run stub_calls stub_init)) = 1%nat ∧
  last (trace (run stub_calls stub_init)) = Some (@EGetInfo stub_env 7%nat 0x400050).
Proof. repeat split; vm_compute; reflexivity. Qed.

Example stub_getInfo :
  fst (getInfo (Some libc_instance) 0x1050
         (snd (setPath "/opt:/usr/lib" stub_init)))
    = Some ("main.c", 42, "main") ∧
  fst (getInfo (Some libc_instance) 0x1051
         (snd (setPath "/opt:/usr/lib" stub_init))) = None ∧
  fst (print (Some libc_instance) 0x1050 true true true
         (snd (setPath "/opt:/usr/lib" stub_init)))
    = Some "main.c:42 - main".
Proof. repeat split; vm_compute; reflexivity. Qed.

End LibrarySpec.

(** * More on the memory tracer *)

Module MemoryTracerMore.
Import MemoryTracer MemoryTracerSpec.

(** ** The filter and the memory handler *)

(** X1: a memory access at a constant address below [m_catchAbove] is
    refused by the filter and leaves the host untouched, whatever the other
    members, the value and the state are. *)
Theorem below_floor_not_traced p state width v hostAddress value
    isWrite isIO data h :
  to_u64 v < m_catchAbove p →
  decideTracing p state (to_u64 v) data = false ∧
  onDataMemoryAccess p state (ConstantExpr width v) hostAddress value
    isWrite isIO h = h.
Proof.
  intros Hlt. split; [by apply decideTracing_below_floor|].
  unfold onDataMemoryAccess. destruct (isa_ConstantExpr value); [|done].
  cbn [isa_ConstantExpr negb orb getZExtValue].
  by rewrite decideTracing_below_floor.
Qed.

Lemma below_floor_not_traced_witness :
  decideTracing floor_plugin sample_state (to_u64 0xfff) 0 = false ∧
  onDataMemoryAccess floor_plugin sample_state (ConstantExpr 32 0xfff)
    (ConstantExpr 64 0) (ConstantExpr 8 0x42) true false fresh_host
    = fresh_host.
Proof. apply below_floor_not_traced. reflexivity. Defined.

(** X2: with the stack monitored and the address at or above the floor, the
    filter accepts exactly the addresses that share their 2^18-byte aligned
    block with the stack pointer; an accepted address is thus less than
    256 KiB away from it. *)
Theorem decideTracing_stack_block p state addr data :
  m_monitorStack p = true →
  m_catchAbove p ≤ addr →
  0 ≤ addr < 2 ^ 64 →
  0 ≤ getSp state < 2 ^ 64 →
  (decideTracing p state addr data = true ↔
   addr / 2 ^ 18 = getSp state / 2 ^ 18) ∧
  (decideTracing p state addr data = true →
   Z.abs (addr - getSp state) < 2 ^ 18).
Proof.
  intros Hmon Hfloor Haddr Hsp.
  pose proof (decideTracing_monitorStack p state addr data
                Hmon Hfloor Haddr Hsp) as Hiff.
  rewrite !Z.shiftr_div_pow2 in Hiff by lia.
  split; [done|]. intros Hacc. apply Hiff in Hacc.
  pose proof (Z.div_mod addr (2 ^ 18) ltac:(lia)).
  pose proof (Z.div_mod (getSp state) (2 ^ 18) ltac:(lia)).
  pose proof (Z.mod_pos_bound addr (2 ^ 18) ltac:(lia)).
  pose proof (Z.mod_pos_bound (getSp state) (2 ^ 18) ltac:(lia)).
  lia.
Qed.

Lemma decideTracing_stack_block_witness :
  (decideTracing stack_plugin sample_state 0x3ffff 0 = true ↔
   0x3ffff / 2 ^ 18 = getSp sample_state / 2 ^ 18) ∧
  (decideTracing stack_plugin sample_state 0x3ffff 0 = true →
   Z.abs (0x3ffff - getSp sample_state) < 2 ^ 18).
Proof.
  apply (decideTracing_stack_block stack_plugin sample_state 0x3ffff 0);
    cbn; lia || reflexivity.
Defined.

(** X3: a memory access with constant address and value that the filter
    accepts writes one memory record: the state's program counter, address
    and value cut to 64 bits, the value's width in whole bytes cut to 8
    bits, and flags below 4 whose bit 0 is the write bit and whose bit 1 is
    the I/O bit. *)
Theorem onDataMemoryAccess_record p state wa a hostAddress wv v
    isWrite isIO h :
  decideTracing p state (to_u64 a) (to_u64 v) = true →
  ∃ e : ExecutionTraceMemory,
    onDataMemoryAccess p state (ConstantExpr wa a) hostAddress
      (ConstantExpr wv v) isWrite isIO h
      = writeData state (ItemMemory e) TRACE_MEMORY h ∧
    mem_pc e = getPc state ∧
    mem_address e = a mod 2 ^ 64 ∧
    mem_value e = v mod 2 ^ 64 ∧
    mem_size e = ((wv + 7) / 8) mod 2 ^ 8 ∧
    Z.testbit (mem_flags e) 0 = isWrite ∧
    Z.testbit (mem_flags e) 1 = isIO ∧
    0 ≤ mem_flags e < 4.
Proof.
  intros Hacc. unfold onDataMemoryAccess.
  cbn [isa_ConstantExpr negb orb getZExtValue getWidth]. rewrite Hacc.
  eexists. split; [reflexivity|]. cbn [mem_pc mem_address mem_value mem_size mem_flags].
  repeat split; try done; destruct isWrite, isIO; done.
Qed.

Lemma onDataMemoryAccess_record_witness :
  ∃ e : ExecutionTraceMemory,
    onDataMemoryAccess floor_plugin sample_state (ConstantExpr 32 0x2000)
      (ConstantExpr 64 0) (ConstantExpr 8 0x42) true false fresh_host
      = writeData sample_state (ItemMemory e) TRACE_MEMORY fresh_host ∧
    mem_pc e = getPc sample_state ∧
    mem_address e = 0x2000 mod 2 ^ 64 ∧
    mem_value e = 0x42 mod 2 ^ 64 ∧
    mem_size e = ((8 + 7) / 8) mod 2 ^ 8 ∧
    Z.testbit (mem_flags e) 0 = true ∧
    Z.testbit (mem_flags e) 1 = false ∧
    0 ≤ mem_flags e < 4.
Proof. apply onDataMemoryAccess_record. reflexivity. Defined.

(** X4: the memory handler changes the host exactly when address and value
    are constants and the filter accepts them; the trace then grows by one
    entry, and otherwise not at all. *)
Theorem onDataMemoryAccess_traces_iff p state address hostAddress value
    isWrite isIO h :
  let h' := onDataMemoryAccess p state address hostAddress value
              isWrite isIO h in
  let accepted :=
    isa_ConstantExpr address && isa_ConstantExpr value &&
    decideTracing p state (getZExtValue address) (getZExtValue value) in
  (h' ≠ h ↔ accepted = true) ∧
  length (traceData h') =
    (length (traceData h) + (if accepted then 1 else 0))%nat.
Proof.
  intros h' accepted. subst h' accepted. unfold onDataMemoryAccess.
  destruct (isa_ConstantExpr address), (isa_ConstantExpr value);
    cbn [negb orb andb]; try (split; [split; [done|discriminate]|lia]).
  destruct (decideTracing _ _ _ _);
    [|split; [split; [done|discriminate]|lia]].
  split; [split; [done|intros _ Heq]|].
  - apply (f_equal (λ x, length (traceData x))) in Heq.
    cbn in Heq. rewrite length_app in Heq. cbn in Heq. lia.
  - cbn. by rewrite length_app.
Qed.

(** X5: none of the three event handlers touches the signal connections or
    the log streams; each keeps the trace written so far and adds at most
    one entry. *)
Theorem handlers_only_append p state address hostAddress value
    isWrite isIO addr is_write h :
  Forall
    (λ h', onDataMemoryAccess_slots h' = onDataMemoryAccess_slots h ∧
           onPageFault_slots h' = onPageFault_slots h ∧
           onTlbMiss_slots h' = onTlbMiss_slots h ∧
           debugStream h' = debugStream h ∧
           messagesStream h' = messagesStream h ∧
           traceData h `prefix_of` traceData h' ∧
           (length (traceData h') ≤ S (length (traceData h)))%nat)
    [ onDataMemoryAccess p state address hostAddress value isWrite isIO h;
      onTlbMiss p state addr is_write h;
      onPageFault p state addr is_write h ].
Proof.
  assert (∀ st item type,
    onDataMemoryAccess_slots (writeData st item type h)
      = onDataMemoryAccess_slots h ∧
    onPageFault_slots (writeData st item type h) = onPageFault_slots h ∧
    onTlbMiss_slots (writeData st item type h) = onTlbMiss_slots h ∧
    debugStream (writeData st item type h) = debugStream h ∧
    messagesStream (writeData st item type h) = messagesStream h ∧
    traceData h `prefix_of` traceData (writeData st item type h) ∧
    (length (traceData (writeData st item type h))
       ≤ S (length (traceData h)))%nat) as Hw.
  { intros st item type. cbn.
    split; [done|]. split; [done|]. split; [done|]. split; [done|].
    split; [done|]. split; [by apply prefix_app_r|].
    rewrite length_app. cbn. lia. }
  assert (∀ P : Host → Prop, P h → (∀ st item type, P (writeData st item type h)) →
            P (onDataMemoryAccess p state address hostAddress value
                 isWrite isIO h)) as Hmem.
  { intros P Hh HP. unfold onDataMemoryAccess.
    destruct (_ || _); [done|]. by destruct (decideTracing _ _ _ _). }
  rewrite !Forall_cons.
  split; [|split; [|split; [|constructor]]]; [|apply Hw..].
  apply Hmem; [|apply Hw].
  split; [done|]. split; [done|]. split; [done|]. split; [done|].
  split; [done|]. split; [done|lia].
Qed.

(** ** Activation *)

(** X6: [enableTracing] adds one connection for each monitor that is
    switched on and none for the others, writes one message per monitor
    switched on after the messages already there, and leaves the trace and
    the debug stream alone. It does not look at what is already connected:
    a second call connects the handlers a second time. *)
Theorem enableTracing_connects p h :
  onDataMemoryAccess_slots (enableTracing p h) =
    (onDataMemoryAccess_slots h + Nat.b2n (m_monitorMemory p))%nat ∧
  onPageFault_slots (enableTracing p h) =
    (onPageFault_slots h + Nat.b2n (m_monitorPageFaults p))%nat ∧
  onTlbMiss_slots (enableTracing p h) =
    (onTlbMiss_slots h + Nat.b2n (m_monitorTlbMisses p))%nat ∧
  traceData (enableTracing p h) = traceData h ∧
  debugStream (enableTracing p h) = debugStream h ∧
  messagesStream h `prefix_of` messagesStream (enableTracing p h) ∧
  length (messagesStream (enableTracing p h)) =
    (length (messagesStream h) + Nat.b2n (m_monitorMemory p)
     + Nat.b2n (m_monitorPageFaults p) + Nat.b2n (m_monitorTlbMisses p))%nat.
Proof.
  unfold enableTracing.
  destruct (m_monitorMemory p), (m_monitorPageFaults p),
    (m_monitorTlbMisses p); cbn;
    rewrite <- ?app_assoc, ?length_app; cbn;
    repeat split; try lia; try done; by apply prefix_app_r.
Qed.

(** X7: from [initialize] on, a TLB miss or a page fault emitted by the core
    changes nothing while the gate waits (trigger N > 0, at most N ticks so
    far); once the gate is open (N = 0, or more than N ticks) it yields one
    record if its monitor is switched on in the configuration and none if
    not. *)
Theorem delivery_follows_gate (cfg : ConfigFile) (k : nat)
    (state : S2EExecutionState) (addr : Z) (is_write : bool) :
  let N := to_u64 (cfg_timeTrigger cfg) in
  let s := ticks k (initialize cfg fresh_host) in
  (0 < N → Z.of_nat k ≤ N →
   emit_onTlbMiss s state addr is_write = s ∧
   emit_onPageFault s state addr is_write = s) ∧
  (N < Z.of_nat k ∨ N = 0 →
   traceData (snd (emit_onTlbMiss s state addr is_write)) =
     (if cfg_monitorTlbMisses cfg
      then [ {| wd_state := state;
                wd_item := ItemTlbMiss {| tlb_pc := getPc state;
                                          tlb_address := addr;
                                          tlb_isWrite := is_write |};
                wd_type := TRACE_TLBMISS |} ]
      else []) ∧
   traceData (snd (emit_onPageFault s state addr is_write)) =
     (if cfg_monitorPageFaults cfg
      then [ {| wd_state := state;
                wd_item := ItemPageFault {| pf_pc := getPc state;
                                            pf_address := addr;
                                            pf_isWrite := is_write |};
                wd_type := TRACE_PAGEFAULT |} ]
      else [])).
Proof.
  intros N s. split.
  - intros HN Hk. apply Pending_no_delivery. by apply pending_Pending.
  - intros Hk.
    assert (Active s ∧ traceData (snd s) = [] ∧
            m_monitorTlbMisses (fst s) = cfg_monitorTlbMisses cfg ∧
            m_monitorPageFaults (fst s) = cfg_monitorPageFaults cfg)
      as ((_ & _ & Hpf & Htlb) & Htr & Hft & Hfp).
    { destruct (initialize_members cfg) as (_ & _ & _ & Hp & Ht & _).
      destruct (decide (N = 0)) as [HN0|HN0].
      - subst s. rewrite ticks_disconnected
          by apply (initialize_immediate cfg HN0).
        split; [by apply initialize_immediate|]. split; [|done].
        unfold initialize. cbn [m_timeTrigger]. fold N. rewrite HN0.
        cbn [Z.eqb snd]. by rewrite enableTracing_traceData.
      - pose proof (to_u64_range (cfg_timeTrigger cfg)) as Hr. fold N in Hr.
        assert (0 < N) as HN by lia. destruct Hk as [Hk|]; [|done].
        subst s. rewrite ticks_after by done.
        split; [by apply fired_Active|]. rewrite ticks_fired by done.
        cbn [fst snd set_timerConnection set_elapsedTics m_monitorTlbMisses
             m_monitorPageFaults].
        split; [|done]. rewrite enableTracing_traceData.
        unfold initialize. cbn [m_timeTrigger]. fold N.
        by destruct (Z.eqb_spec N 0). }
    unfold emit_onTlbMiss, emit_onPageFault. cbn [snd fst].
    rewrite Hpf, Htlb, Hft, Hfp.
    by destruct (cfg_monitorTlbMisses cfg), (cfg_monitorPageFaults cfg);
      cbn; rewrite ?Htr.
Qed.

End MemoryTracerMore.

(** * More on the library of parsed executables *)

Module LibraryMore.
Import Library LibrarySpec.
Import Stdlib.Strings.Ascii.

(** ** Address arithmetic *)

(** X18: the address handed to the parser lies in the 64-bit range; it does
    not change when load base and program counter move by the same amount;
    for a module loaded at its image base it is the program counter; adding
    the load base back and taking the image base off gives the program
    counter again, modulo 2^64; and without overflow it is the image base
    plus the offset into the module. *)
Theorem reladdr_arithmetic (pc loadBase imageBase d : Z) :
  0 ≤ reladdr pc loadBase imageBase < 2 ^ 64 ∧
  reladdr (pc + d) (loadBase + d) imageBase = reladdr pc loadBase imageBase ∧
  reladdr pc loadBase loadBase = pc mod 2 ^ 64 ∧
  (reladdr pc loadBase imageBase - imageBase + loadBase) mod 2 ^ 64
    = pc mod 2 ^ 64 ∧
  (loadBase ≤ pc → 0 ≤ imageBase → imageBase + (pc - loadBase) < 2 ^ 64 →
   reladdr pc loadBase imageBase = imageBase + (pc - loadBase)).
Proof.
  rewrite !reladdr_mod. split; [apply Z.mod_pos_bound; lia|].
  split; [f_equal; lia|]. split; [f_equal; lia|]. split.
  - replace ((pc - loadBase + imageBase) mod 2 ^ 64 - imageBase + loadBase)
      with ((pc - loadBase + imageBase) mod 2 ^ 64 + (loadBase - imageBase))
      by lia.
    rewrite Zplus_mod_idemp_l. f_equal. lia.
  - intros H1 H2 H3. rewrite Z.mod_small; lia.
Qed.

(** ** Splitting the search path *)

Lemma split_colon_nonempty s : split_colon s ≠ [].
Proof.
  destruct s as [|c s]; cbn; [done|].
  destruct (Ascii.eqb c ":"%char); [done|]. by destruct (split_colon s).
Qed.

Lemma split_colon_join s : String.concat ":" (split_colon s) = s.
Proof.
  induction s as [|c s IH]; [done|]. cbn [split_colon].
  pose proof (split_colon_nonempty s) as Hne.
  destruct (Ascii.eqb_spec c ":"%char) as [->|_];
    destruct (split_colon s) as [|f fs]; try done; rewrite <- IH.
  - reflexivity.
  - by destruct fs.
Qed.

Lemma split_colon_length s : length (split_colon s) = S (colons s).
Proof.
  induction s as [|c s IH]; [done|]. cbn [split_colon colons].
  pose proof (split_colon_nonempty s).
  destruct (Ascii.eqb c ":"%char); cbn; [by rewrite IH|].
  destruct (split_colon s); [done|]. cbn in *. lia.
Qed.

Lemma split_colon_no_colon s : Forall (λ f, has_colon f = false) (split_colon s).
Proof.
  induction s as [|c s IH]; cbn [split_colon]; [by repeat constructor|].
  destruct (Ascii.eqb c ":"%char) eqn:E; [by constructor|].
  destruct (split_colon s) as [|f fs]; [repeat constructor; cbn; by rewrite E|].
  inversion IH; subst. constructor; [|done]. cbn. by rewrite E.
Qed.

(** [find] and [substr] against the fields: a round of the loop at [prev]
    takes the first field of what is left of the string. *)
Lemma index_colon_split (str : string) (prev : nat) :
  match String.index prev ":" str with
  | Some cur =>
    split_colon (string_drop prev str) =
      String.substring prev (cur - prev) str
        :: split_colon (string_drop (cur + 1) str)
  | None =>
    (prev ≤ String.length str)%nat →
    split_colon (string_drop prev str) =
      [String.substring prev (String.length str - prev) str]
  end.
Proof.
  revert prev. induction str as [|c str IH]; intros [|n]; cbn [String.index].
  - done.
  - cbn. lia.
  - cbn [String.prefix].
    destruct (Ascii.ascii_dec ":"%char c) as [<-|Hne].
    + by destruct str.
    + specialize (IH 0%nat).
      assert (Ascii.eqb c ":"%char = false) as Hc
        by (apply Ascii.eqb_neq; congruence).
      change (string_drop 0 (String c str)) with (String c str).
      change (string_drop 0 str) with str in IH.
      cbn [split_colon]. rewrite Hc.
      destruct (String.index 0 ":" str) as [k|].
      * rewrite IH, Nat.sub_0_r. by rewrite Nat.sub_0_r.
      * intros _. rewrite IH by lia. by rewrite Nat.sub_0_r.
  - specialize (IH n).
    destruct (String.index n ":" str) as [k|].
    + exact IH.
    + intros Hn. apply IH. cbn in Hn. lia.
Qed.

Lemma length_candidates paths libName :
  length (candidates paths libName) = length paths.
Proof. unfold candidates. apply length_map. Qed.

Section WithEnvironment.
Context `{Environment}.
Implicit Types (s : State) (p q : string).

(** The state [setPath_loop] ends in, given enough rounds. *)
Lemma setPath_loop_state rounds str prev s :
  (prev ≤ String.length str)%nat →
  (String.length str - prev < rounds)%nat →
  snd (setPath_loop rounds str prev s) =
    {| world := world s;
       lib := {| m_libpath := m_libpath (lib s)
                   ++ split_colon (string_drop prev str);
                 m_libraries := m_libraries (lib s);
                 m_badLibraries := m_badLibraries (lib s) |};
       trace := trace s
         ++ map (λ f, EStdout ("Adding libpath " +:+ f))
                (split_colon (string_drop prev str)) |}.
Proof.
  revert prev s. induction rounds as [|rounds IH]; intros prev s Hp Hr; [lia|].
  cbn [setPath_loop]. pose proof (index_colon_split str prev) as Hs.
  destruct (String.index prev ":" str) as [cur|] eqn:E.
  - apply index_colon_bounds in E. rewrite Hs.
    unfold bind at 1 2. cbn [libpath_push_back cout emit bind get_lib put_lib].
    unfold libpath_push_back, cout, emit, bind, get_lib, put_lib. cbn [snd].
    rewrite IH by lia. cbn [world lib trace m_libpath m_libraries m_badLibraries].
    cbn [map]. by rewrite <- !app_assoc.
  - rewrite Hs by done.
    unfold libpath_push_back, cout, emit, bind, get_lib, put_lib. cbn.
    done.
Qed.

(** The state [setPath] ends in. *)
Lemma setPath_state (str : string) s :
  snd (setPath str s) =
    {| world := world s;
       lib := {| m_libpath := m_libpath (lib s) ++ split_colon str;
                 m_libraries := m_libraries (lib s);
                 m_badLibraries := m_badLibraries (lib s) |};
       trace := trace s ++ EStdout ("PATH " +:+ str)
         :: map (λ f, EStdout ("Adding libpath " +:+ f)) (split_colon str) |}.
Proof.
  unfold setPath, bind, cout, emit. cbn [snd].
  rewrite setPath_loop_state by (cbn; lia).
  cbn. by rewrite <- app_assoc.
Qed.

(** X8: [setPath] adds the fields of its argument, in order, at the end of
    the search path, keeps both caches and the world, and prints one line
    for the whole string and one per field. The fields are the pieces
    between the colons: joined by colons they give the argument back, none
    holds a colon, and there is one more of them than there are colons, so
    the empty string adds one empty directory. *)
Theorem setPath_appends_fields (str : string) (s : State) :
  let fields := split_colon str in
  snd (setPath str s) =
    {| world := world s;
       lib := {| m_libpath := m_libpath (lib s) ++ fields;
                 m_libraries := m_libraries (lib s);
                 m_badLibraries := m_badLibraries (lib s) |};
       trace := trace s ++ EStdout ("PATH " +:+ str)
         :: map (λ f, EStdout ("Adding libpath " +:+ f)) fields |} ∧
  String.concat ":" fields = str ∧
  length fields = S (colons str) ∧
  Forall (λ f, has_colon f = false) fields.
Proof.
  intros fields. split; [apply setPath_state|]. split; [|split].
  - apply split_colon_join.
  - apply split_colon_length.
  - apply split_colon_no_colon.
Qed.

(** ** Searching *)

(** The probes of [findLibrary_loop]: candidates in order, up to the one
    that opened. *)
Lemma findLibrary_loop_probes paths libName s :
  ∃ k : nat,
    (k ≤ length paths)%nat ∧
    lib (snd (findLibrary_loop paths libName s)) = lib s ∧
    trace (snd (findLibrary_loop paths libName s)) =
      trace s ++ map EOpen (take k (candidates paths libName)) ∧
    match fst (findLibrary_loop paths libName s) with
    | None => k = length paths
    | Some abspath => last (take k (candidates paths libName)) = Some abspath
    end.
Proof.
  revert s. induction paths as [|dir rest IH]; intros s.
  - exists 0%nat. cbn. by rewrite app_nil_r.
  - cbn [findLibrary_loop]. unfold bind, call_env.
    destruct (ifstream_is_open _ (world s)) as [[|] w] eqn:E.
    + exists 1%nat. cbn. split; [lia|]. by rewrite take_0.
    + match goal with |- context [findLibrary_loop rest libName ?s1] =>
        destruct (IH s1) as (k & Hk & Hl & Ht & Hr) end.
      exists (S k). cbn [length candidates map take]. split; [lia|].
      split; [by rewrite Hl|]. split.
      * rewrite Ht. cbn [trace map]. by rewrite <- app_assoc.
      * fold (candidates rest libName).
        destruct (fst (findLibrary_loop rest libName _)) as [abspath|];
          [|by rewrite Hr].
        destruct (take k (candidates rest libName)) eqn:Et; [done|].
        by rewrite last_cons, Hr.
Qed.

(** X9: [findLibrary] leaves the library object alone and probes the
    candidates [dir/libName] in the order of the search path, stopping at the
    first that opens: the probes are the first [k] candidates; on failure
    all were probed, on success the answer is the last one probed. *)
Theorem findLibrary_probes_in_order (libName : string) (s : State) :
  let cands := candidates (m_libpath (lib s)) libName in
  ∃ k : nat,
    (k ≤ length cands)%nat ∧
    lib (snd (findLibrary libName s)) = lib s ∧
    trace (snd (findLibrary libName s)) = trace s ++ map EOpen (take k cands) ∧
    match fst (findLibrary libName s) with
    | None => k = length cands
    | Some abspath => last (take k cands) = Some abspath
    end.
Proof.
  intros cands.
  change (findLibrary libName s)
    with (findLibrary_loop (m_libpath (lib s)) libName s).
  destruct (findLibrary_loop_probes (m_libpath (lib s)) libName s)
    as (k & Hk & Hl & Ht & Hr).
  exists k. subst cands. rewrite !length_candidates.
  done.
Qed.

(** X10: on a file system that answers each probe by a fixed predicate and
    is not changed by probing, [findLibrary] returns the first candidate, in
    search-path order, that the predicate accepts, and nothing if there is
    none. *)
Theorem findLibrary_first_match (openable : string → bool)
    (libName : string) (s : State) :
  (∀ path w, ifstream_is_open path w = (openable path, w)) →
  fst (findLibrary libName s) =
    find openable (candidates (m_libpath (lib s)) libName) ∧
  world (snd (findLibrary libName s)) = world s.
Proof.
  intros Hfs.
  change (findLibrary libName s)
    with (findLibrary_loop (m_libpath (lib s)) libName s).
  generalize (m_libpath (lib s)) as paths. intros paths.
  assert (∀ s1, fst (findLibrary_loop paths libName s1) =
                  find openable (candidates paths libName) ∧
                world (snd (findLibrary_loop paths libName s1)) = world s1)
    as Hgen; [|apply Hgen].
  induction paths as [|dir rest IH]; intros s1; [done|].
  cbn [findLibrary_loop candidates map find]. unfold bind, call_env.
  rewrite Hfs. destruct (openable _); [done|].
  match goal with |- context [findLibrary_loop rest libName ?s2] =>
    by destruct (IH s2) as [-> ->] end.
Qed.

(** X17: while the search path is empty nothing can be found: [findLibrary],
    [addLibrary], [get], [getInfo] and [print] all fail and leave the state
    as it is, without a probe or a parser call. *)
Theorem no_search_path (name : string) (mi : ModuleInstance) (pc : Z)
    (file line func : bool) (s : State) :
  m_libpath (lib s) = [] →
  findLibrary name s = (None, s) ∧
  addLibrary name s = (false, s) ∧
  get name s = (None, s) ∧
  getInfo (Some mi) pc s = (None, s) ∧
  print (Some mi) pc file line func s = (None, s).
Proof.
  intros Hp.
  assert (∀ n, findLibrary n s = (None, s)) as Hf.
  { intros n. unfold findLibrary, bind, get_lib. by rewrite Hp. }
  assert (∀ n, get n s = (None, s)) as Hg.
  { intros n. unfold get, bind. by rewrite Hf. }
  split; [done|]. split; [unfold addLibrary, bind; by rewrite Hf|].
  split; [done|].
  unfold print, print_module, getInfo, bind. by rewrite Hg.
Qed.

(** ** Adding and getting *)

Lemma addLibraryAbs_true_cached p (s : State) :
  fst (addLibraryAbs p s) = true ↔
  is_Some (m_libraries (lib (snd (addLibraryAbs p s))) !! p).
Proof.
  destruct (addLibraryAbs_cases p s)
    as [(Hin & ->)|[(Hnone & Hbad & ->)|[(Hnone & Hnbad & w & Hc & ->)
       |(Hnone & Hnbad & e & w & Hc & ->)]]];
    cbn [fst snd lib m_libraries]; rewrite ?Hnone, ?lookup_insert_eq;
    split; try done; by intros ?%is_Some_None.
Qed.

Lemma addLibraryAbs_false_bad p s :
  fst (addLibraryAbs p s) = false →
  p ∈ m_badLibraries (lib (snd (addLibraryAbs p s))).
Proof.
  destruct (addLibraryAbs_cases p s)
    as [(Hin & ->)|[(Hnone & Hbad & ->)|[(Hnone & Hnbad & w & Hc & ->)
       |(Hnone & Hnbad & e & w & Hc & ->)]]];
    cbn [fst snd lib m_badLibraries]; try done.
  intros _. set_solver.
Qed.

(** X11: [addLibraryAbs] answers [true] exactly when the path is a key of the
    map of executables afterwards, and after the answer [false] the path is
    in the set of bad libraries; no other key of either cache changes, and
    the search path stays as it is. *)
Theorem addLibraryAbs_lookup (p : string) (s : State) :
  let r := fst (addLibraryAbs p s) in
  let s' := snd (addLibraryAbs p s) in
  (r = true ↔ is_Some (m_libraries (lib s') !! p)) ∧
  (r = false → p ∈ m_badLibraries (lib s')) ∧
  (∀ q, q ≠ p →
     m_libraries (lib s') !! q = m_libraries (lib s) !! q ∧
     (q ∈ m_badLibraries (lib s') ↔ q ∈ m_badLibraries (lib s))) ∧
  m_libpath (lib s') = m_libpath (lib s).
Proof.
  intros r s'. subst r s'.
  destruct (addLibraryAbs_cases p s)
    as [(Hin & ->)|[(Hnone & Hbad & ->)|[(Hnone & Hnbad & w & Hc & ->)
       |(Hnone & Hnbad & e & w & Hc & ->)]]];
    cbn [fst snd lib m_libraries m_badLibraries m_libpath].
  - done.
  - rewrite Hnone. split; [|done]. split; [done|by intros ?%is_Some_None].
  - rewrite Hnone. split; [split; [done|by intros ?%is_Some_None]|].
    split; [set_solver|]. split; [|done]. intros q Hq.
    split; [done|]. rewrite elem_of_union, elem_of_singleton. tauto.
  - rewrite lookup_insert_eq. split; [done|]. split; [done|].
    split; [|done]. intros q Hq. by rewrite lookup_insert_ne.
Qed.

(** X13: when the search resolves a name to a path that is already cached,
    [get] answers from the cache and does nothing beyond the probes of the
    search: the stored executable for a path in the map, and failure for a
    path that is in the set of bad libraries and not in the map. *)
Theorem get_from_caches (name path : string) (s s1 : State) :
  findLibrary name s = (Some path, s1) →
  (∀ e, m_libraries (lib s) !! path = Some e → get name s = (Some e, s1)) ∧
  (m_libraries (lib s) !! path = None → path ∈ m_badLibraries (lib s) →
   get name s = (None, s1)).
Proof.
  intros Hf. pose proof (findLibrary_frame name s) as [Hl _].
  rewrite Hf in Hl. cbn [snd] in Hl.
  unfold get, bind. rewrite Hf. unfold addLibraryAbs, bind, get_lib, ret.
  rewrite Hl. split.
  - intros e He. rewrite decide_True by (by rewrite He). by rewrite Hl, He.
  - intros Hnone Hbad.
    rewrite decide_False by (rewrite Hnone; by intros ?%is_Some_None).
    by rewrite decide_True.
Qed.

(** X14: an executable returned by [get] is stored in the map under one of
    the candidate paths of the name; the lookup that follows a successful
    [addLibraryAbs] never misses. When [get] fails, either the search found
    no file or the file found is in the set of bad libraries afterwards. *)
Theorem get_returns_cached (name : string) (s : State) :
  match fst (get name s) with
  | Some e =>
    ∃ path, path ∈ candidates (m_libpath (lib s)) name ∧
            m_libraries (lib (snd (get name s))) !! path = Some e
  | None =>
    fst (findLibrary name s) = None ∨
    ∃ path, fst (findLibrary name s) = Some path ∧
            path ∈ m_badLibraries (lib (snd (get name s)))
  end.
Proof.
  destruct (findLibrary_loop_probes (m_libpath (lib s)) name s)
    as (k & _ & Hl & _ & Hr).
  unfold get, bind.
  change (findLibrary name s)
    with (findLibrary_loop (m_libpath (lib s)) name s).
  destruct (findLibrary_loop (m_libpath (lib s)) name s) as [[path|] s1];
    cbn [fst snd] in *; [|by left].
  pose proof (addLibraryAbs_true_cached path s1) as Ht.
  pose proof (addLibraryAbs_false_bad path s1) as Hf.
  destruct (addLibraryAbs path s1) as [[|] s2]; cbn [fst snd] in *.
  - unfold get_lib, ret. cbn [fst snd].
    destruct (proj1 Ht eq_refl) as [e He]. rewrite He.
    exists path. split; [|done].
    apply last_Some_elem_of in Hr.
    apply elem_of_take in Hr as (i & Hi & _).
    by eapply list_elem_of_lookup_2.
  - right. exists path. split; [done|]. by apply Hf.
Qed.

(** X15: [addLibrary] and [get] agree: on the same state they end in the same
    state, and [addLibrary] answers [true] exactly when [get] returns an
    executable. *)
Theorem addLibrary_agrees_get (name : string) (s : State) :
  addLibrary name s =
    (bool_decide (is_Some (fst (get name s))), snd (get name s)).
Proof.
  unfold addLibrary, get, bind.
  destruct (findLibrary name s) as [[path|] s1]; [|done].
  pose proof (addLibraryAbs_true_cached path s1) as Ht.
  destruct (addLibraryAbs path s1) as [[|] s2]; cbn [fst snd] in *; [|done].
  unfold get_lib, ret. cbn [fst snd].
  by rewrite bool_decide_eq_true_2 by (by apply Ht).
Qed.

(** X16: [print] on a module instance runs the same search, parse and query
    as [getInfo], ends in the same state, succeeds exactly when [getInfo]
    does, and its text is the formatted answer of [getInfo]: empty when all
    three switches are off, and file, colon, line, blank-dash-blank,
    function when all are on. *)
Theorem print_formats_getInfo (mi : ModuleInstance) (pc : Z)
    (file line func : bool) (s : State) :
  print (Some mi) pc file line func s =
    (print_format file line func <$> fst (getInfo (Some mi) pc s),
     snd (getInfo (Some mi) pc s)) ∧
  (∀ info, print_format false false false info = "") ∧
  (∀ source ln function,
     print_format true true true (source, ln, function) =
       (source +:+ ":" +:+ show_u64 ln) +:+ " - " +:+ function).
Proof.
  split; [|split; [by intros [[? ?] ?]|done]].
  unfold print, print_module, getInfo, bind.
  destruct (get (Name mi) s) as [[exec|] s1]; [|done].
  destruct (call_env _ _ s1) as [[[[source ln] function]|] s2]; done.
Qed.

(** ** What a run keeps *)

Lemma grows_refl s : grows s s.
Proof. by unfold grows. Qed.

Lemma grows_trans s1 s2 s3 : grows s1 s2 → grows s2 s3 → grows s1 s3.
Proof.
  intros (P1 & L1 & B1) (P2 & L2 & B2). split; [|split]; by etrans.
Qed.

(** A property of pairs of states that is reflexive, transitive and kept by
    the four steps the member functions are made of holds between the two
    ends of any sequence of calls. *)
Lemma run_steps (R : State → State → Prop) :
  (∀ s, R s s) →
  (∀ s1 s2 s3, R s1 s2 → R s2 s3 → R s1 s3) →
  (∀ str s, R s (snd (setPath str s))) →
  (∀ libName s, R s (snd (findLibrary libName s))) →
  (∀ q s, R s (snd (addLibraryAbs q s))) →
  (∀ exec a s,
     R s (snd (call_env (ExecutableFile_getInfo exec a) (EGetInfo exec a) s))) →
  ∀ calls s, R s (run calls s).
Proof.
  intros Hrefl Htrans Hset Hfind Hadd Hinfo.
  assert (∀ n s, R s (snd (get n s))) as Hget.
  { intros n s. unfold get, bind. pose proof (Hfind n s) as Hf.
    destruct (findLibrary n s) as [[abspath|] s1]; cbn [snd] in *; [|done].
    pose proof (Hadd abspath s1) as Ha.
    destruct (addLibraryAbs abspath s1) as [[|] s2]; cbn [snd] in *; eauto. }
  assert (∀ n lb ib pc f l fn s,
            R s (snd (print_module n lb ib pc f l fn s))) as Hprint.
  { intros n lb ib pc f l fn s. unfold print_module, bind.
    pose proof (Hget n s) as Hg.
    destruct (get n s) as [[exec|] s1]; cbn [snd] in *; [|done].
    match goal with |- context [call_env ?g ?e s1] =>
      pose proof (Hinfo exec (reladdr pc lb ib) s1) as Hc;
      destruct (call_env g e s1) as [[[[source ln] function]|] s2]
    end; cbn [snd] in *; eauto. }
  assert (∀ c s, R s (do_call c s)) as Hcall.
  { intros c s.
    destruct c as [str|n|n|q|n|[mi|] pc|n lb ib pc f l fn|[mi|] pc f l fn];
      cbn [do_call].
    - apply Hset.
    - apply Hfind.
    - unfold addLibrary, bind. pose proof (Hfind n s) as Hf.
      destruct (findLibrary n s) as [[abspath|] s1]; cbn [snd] in *; eauto.
    - apply Hadd.
    - apply Hget.
    - unfold getInfo, bind. pose proof (Hget (Name mi) s) as Hg.
      destruct (get (Name mi) s) as [[exec|] s1]; cbn [snd] in *; eauto.
    - apply Hrefl.
    - apply Hprint.
    - apply Hprint.
    - apply Hrefl. }
  induction calls as [|c calls IH]; intros s; [apply Hrefl|].
  cbn [run foldl]. eapply Htrans; [apply Hcall|apply IH].
Qed.

(** X12: over any sequence of calls the library only gains: the search path
    is extended at its end, every executable in the map stays there under
    its path (none is dropped or replaced), and every bad library stays
    bad. *)
Theorem caches_only_grow (calls : list Call) (s : State) :
  m_libpath (lib s) `prefix_of` m_libpath (lib (run calls s)) ∧
  m_libraries (lib s) ⊆ m_libraries (lib (run calls s)) ∧
  m_badLibraries (lib s) ⊆ m_badLibraries (lib (run calls s)).
Proof.
  apply (run_steps grows); clear calls s.
  - apply grows_refl.
  - apply grows_trans.
  - intros str s. unfold grows. rewrite setPath_state.
    split; [|done]. cbn. by apply prefix_app_r.
  - intros libName s. unfold grows.
    by destruct (findLibrary_frame libName s) as [-> _].
  - intros q s.
    destruct (addLibraryAbs_cases q s)
      as [(Hin & ->)|[(Hnone & Hbad & ->)|[(Hnone & Hnbad & w & Hc & ->)
         |(Hnone & Hnbad & e & w & Hc & ->)]]];
      cbn [snd]; try apply grows_refl.
    + split; [done|]. split; [done|]. cbn. set_solver.
    + split; [done|]. split; [|done]. cbn. by apply insert_subseteq.
  - intros exec a s. unfold call_env.
    by destruct (ExecutableFile_getInfo exec a (world s)).
Qed.

End WithEnvironment.

Lemma findLibrary_first_match_witness :
  fst (findLibrary (H := stub_env) "libc.so"
         (snd (setPath "/opt:/usr/lib" stub_init))) =
    find (λ path,
            bool_decide (path ∈ ["/usr/lib/libc.so"; "/usr/lib/junk.so"]))
      (candidates
         (m_libpath (lib (snd (setPath "/opt:/usr/lib" stub_init))))
         "libc.so") ∧
  world (snd (findLibrary (H := stub_env) "libc.so"
                (snd (setPath "/opt:/usr/lib" stub_init)))) =
    world (snd (setPath "/opt:/usr/lib" stub_init)).
Proof.
  apply (findLibrary_first_match (H := stub_env)). intros path w. reflexivity.
Defined.

Lemma get_from_caches_witness :
  let s1 := snd (findLibrary "junk.so" stub_cached) in
  (∀ e, m_libraries (lib stub_cached) !! "/usr/lib/junk.so" = Some e →
        get "junk.so" stub_cached = (Some e, s1)) ∧
  (m_libraries (lib stub_cached) !! "/usr/lib/junk.so" = None →
   "/usr/lib/junk.so" ∈ m_badLibraries (lib stub_cached) →
   get "junk.so" stub_cached = (None, s1)).
Proof.
  apply (get_from_caches (H := stub_env)). vm_compute. reflexivity.
Defined.

Lemma no_search_path_witness :
  findLibrary "libc.so" stub_init = (None, stub_init) ∧
  addLibrary "libc.so" stub_init = (false, stub_init) ∧
  get "libc.so" stub_init = (None, stub_init) ∧
  getInfo (Some libc_instance) 0x1050 stub_init = (None, stub_init) ∧
  print (Some libc_instance) 0x1050 true true true stub_init
    = (None, stub_init).
Proof. apply (no_search_path (H := stub_env)). reflexivity. Defined.

End LibraryMore.

(** * Printing in base 16 *)

Module UtilsSpec.
Import Utils.
Import Stdlib.Strings.Ascii.

(** Eight digits asked for, none asked for, zero, and a stream set to
    left adjustment with [showbase] and [uppercase]. *)
Example hexval_samples :
  os_text (hexval_insert fresh_ostream {| value := 0x1abf0; width := 8 |})
    = "0x0001abf0" ∧
  os_text (hexval_insert fresh_ostream {| value := 0x1abf0; width := 0 |})
    = "0x1abf0" ∧
  os_text (hexval_insert fresh_ostream {| value := 0; width := 0 |}) = "0x0" ∧
  os_text (hexval_insert
             (set_flags (setf_hex {| f_dec := true; f_oct := false;
                f_hex := false; f_left := true; f_right := false;
                f_internal := false; f_showbase := true;
                f_uppercase := true; f_other := 0 |}) fresh_ostream)
             {| value := 0xab; width := 6 |}) = "0x0XAB00".
Proof. repeat split; vm_compute; reflexivity. Qed.











End UtilsSpec.
